(** * Nantes mobility map: filter pipeline and render synchronisation

    Shallow embedding of the script part of [src/App.vue] (lines 1-304 and
    the two inline template handlers at lines 348 and 371).

    - The three JSON datasets are Section variables, as they are module
      constants in the source.
    - [Record<string, T>] objects read with [obj[key]] are [gmap string T];
      this leaves out keys that are property names of [Object.prototype]
      (a stop whose id is the word constructor), which the declared types exclude.
    - A JS [Set<string>] used through has/add/delete/clear/size is a
      [gset string]; the JS [Map] of the statistics, whose iteration order
      matters, is an association list in insertion order.
    - Strings are Rocq strings, that is UTF-8 bytes, standing for
      well-formed text. [trim] works on code points with the white-space
      table of the language. [toLowerCase], the Unicode lower-casing of
      the engine, is a parameter of the dashboard ([Engine]); the examples
      run with a lower-casing of ASCII letters.
    - Counters are JS numbers holding small non-negative integers: [Z].
      Coordinates and the opacity are binary64 numbers: primitive floats.
    - Arrays are Rocq lists where a claim is about their contents. Where
      it matters that they are objects (a computed property hands out the
      same array until it is computed again, [sort] works in place), a
      [Memory] holds them by address together with the cached values of
      the computed properties.
    - Leaflet is an external collaborator: a layer is the list of objects
      it holds, and every call made to it is appended to a trace. *)

From Stdlib Require Import ZArith List Ascii String Sorted Permutation PrimFloat.
From stdpp Require Import gmap strings list sorting.

Open Scope Z_scope.

Set Warnings "-clear-no-such-hyp".
Set Default Proof Using "Type".

(** ** Strings *)

Module Str.

Definition quote : string := String (ascii_of_nat 34) EmptyString.
Definition nl : string := String (ascii_of_nat 10) EmptyString.

(** [attr k v] is the text [k="v"]. *)
Definition attr (k v : string) : string := k +:+ "=" +:+ quote +:+ v +:+ quote.

(** [s.startsWith(q)] and [s.includes(q)]: [q] occurs in [s] at the
    start, at some position. On well-formed text an occurrence among the
    bytes of the UTF-8 forms is an occurrence among the code units. *)
Fixpoint startsWith (s q : string) {struct q} : bool :=
    match q, s with
    | EmptyString, _ => true
    | String _ _, EmptyString => false
    | String b q', String a s' => Ascii.eqb a b && startsWith s' q'
    end.

Fixpoint includes (s q : string) : bool :=
    startsWith s q ||
    match s with
    | EmptyString => false
    | String _ s' => includes s' q
    end.

(** *** Code points *)

Definition byte (c : ascii) : N := N_of_ascii c.

Definition chr (n : N) : ascii := ascii_of_N n.

(** A continuation byte, 10xxxxxx. *)
Definition isCont (c : ascii) : bool :=
    ((128 <=? byte c) && (byte c <? 192))%N.

(** A byte that starts no well-formed sequence stands for itself, past
    the range of Unicode. *)
Definition stray (c : ascii) : N := (1114112 + byte c)%N.

(** The code points of a UTF-8 string; a sequence longer than its code
    point needs is not well formed. *)
Fixpoint codePoints (s : string) : list N :=
    match s with
    | EmptyString => []
    | String c1 s1 =>
        let b1 := byte c1 in
        if (b1 <? 128)%N then b1 :: codePoints s1
        else
          match s1 with
          | EmptyString => [stray c1]
          | String c2 s2 =>
              let cp2 := ((b1 - 192) * 64 + (byte c2 - 128))%N in
              if (194 <=? b1)%N && (b1 <? 224)%N && isCont c2
              then cp2 :: codePoints s2
              else
                match s2 with
                | EmptyString => stray c1 :: codePoints s1
                | String c3 s3 =>
                    let cp3 := ((b1 - 224) * 4096 + (byte c2 - 128) * 64
                                + (byte c3 - 128))%N in
                    if (224 <=? b1)%N && (b1 <? 240)%N && isCont c2 && isCont c3
                       && (2048 <=? cp3)%N
                    then cp3 :: codePoints s3
                    else
                      match s3 with
                      | EmptyString => stray c1 :: codePoints s1
                      | String c4 s4 =>
                          let cp4 := ((b1 - 240) * 262144
                                      + (byte c2 - 128) * 4096
                                      + (byte c3 - 128) * 64
                                      + (byte c4 - 128))%N in
                          if (240 <=? b1)%N && (b1 <? 248)%N
                             && isCont c2 && isCont c3 && isCont c4
                             && (65536 <=? cp4)%N && (cp4 <? 1114112)%N
                          then cp4 :: codePoints s4
                          else stray c1 :: codePoints s1
                      end
                end
          end
    end.

(** The UTF-8 form of a code point. *)
Definition utf8 (cp : N) : string :=
    if (cp <? 128)%N then String (chr cp) EmptyString
    else if (cp <? 2048)%N then
      String (chr (192 + cp / 64)) (String (chr (128 + cp mod 64)) EmptyString)
    else if (cp <? 65536)%N then
      String (chr (224 + cp / 4096))
        (String (chr (128 + (cp / 64) mod 64))
           (String (chr (128 + cp mod 64)) EmptyString))
    else if (cp <? 1114112)%N then
      String (chr (240 + cp / 262144))
        (String (chr (128 + (cp / 4096) mod 64))
           (String (chr (128 + (cp / 64) mod 64))
              (String (chr (128 + cp mod 64)) EmptyString)))
    else String (chr (cp - 1114112)) EmptyString.

Definition fromCodePoints (l : list N) : string :=
    foldr (λ cp s, utf8 cp +:+ s) EmptyString l.

(** WhiteSpace and LineTerminator of the language: U+0009 to U+000D,
    U+0020, U+00A0, U+1680, U+2000 to U+200A, U+2028, U+2029, U+202F,
    U+205F, U+3000 and U+FEFF. *)
Definition isWhiteSpace (cp : N) : bool :=
    ((9 <=? cp) && (cp <=? 13) || (cp =? 32) || (cp =? 160) || (cp =? 5760)
     || (8192 <=? cp) && (cp <=? 8202) || (cp =? 8232) || (cp =? 8233)
     || (cp =? 8239) || (cp =? 8287) || (cp =? 12288) || (cp =? 65279))%N.

Fixpoint dropWhite (l : list N) : list N :=
    match l with
    | [] => []
    | cp :: l' => if isWhiteSpace cp then dropWhite l' else l
    end.

Definition trimStart (s : string) : string :=
    fromCodePoints (dropWhite (codePoints s)).

Definition trimEnd (s : string) : string :=
    fromCodePoints (rev (dropWhite (rev (codePoints s)))).

(** [String.prototype.trim]: white space stripped at both ends. *)
Definition trim (s : string) : string :=
    fromCodePoints (rev (dropWhite (rev (dropWhite (codePoints s))))).

(** Nothing but white space, or nothing at all. *)
Definition blank (s : string) : bool := forallb isWhiteSpace (codePoints s).

(** *** A lower-casing for the examples *)

Definition lower_ascii (c : ascii) : ascii :=
    let n := nat_of_ascii c in
    if ((65 <=? n) && (n <=? 90))%nat then ascii_of_nat (n + 32) else c.

(** What [String.prototype.toLowerCase] does on ASCII text: A-Z become
    a-z, the other bytes stay. *)
Fixpoint asciiLower (s : string) : string :=
    match s with
    | EmptyString => EmptyString
    | String c s' => String (lower_ascii c) (asciiLower s')
    end.

End Str.

(** What the dashboard takes from the JS engine and this file does not
    spell out: [String.prototype.toLowerCase], the Unicode lower-casing, on
    UTF-8 text. *)
Record Engine := { toLowerCase : string → string }.

(** An engine for the examples, right on ASCII text. *)
Definition asciiEngine : Engine := {| toLowerCase := Str.asciiLower |}.

(** ** Data model (lines 17-39) *)

Record Stop := {
  stop_id : string;
  stop_name : string;
  stop_lat : float;
  stop_lon : float
}.

Record StopMeta := {
  is_tram : bool;
  lines : list string;
  wheelchair : option bool
}.

Record Shape := {
  route_name : string;
  color : string;
  points : list (list float)
}.

(** ** Filter state (lines 49-54) *)

Record FilterState := {
  showStops : bool;
  showBus : bool;
  showTram : bool;
  showAllLines : bool;
  searchQuery : string;
  selectedLines : gset string
}.

Definition initialFilter : FilterState :=
  {| showStops := true; showBus := true; showTram := true;
     showAllLines := false; searchQuery := EmptyString; selectedLines := ∅ |}.

(** ** What is handed to Leaflet *)

(** The two SVG constants of lines 58-59. *)
Inductive Glyph := busSVG | tramSVG.

Record DivIcon := { iconSvg : Glyph; colorClass : string }.

Record Marker := {
  marker_lat : float;
  marker_lon : float;
  marker_icon : DivIcon;
  marker_popup : string
}.

Record Polyline := {
  poly_points : list (list float);
  poly_color : string;
  poly_weight : Z;
  poly_opacity : float;
  poly_popup : string
}.

Inductive LeafletCall :=
| ClearMarkers
| AddMarker (m : Marker)
| ClearShapes
| AddPolyline (p : Polyline).

(** The application: the filter refs, the two layers ([None] until
    [initMap] has run) and the trace of calls made to the layers. *)
Record App := {
  filter_state : FilterState;
  markersLayer : option (list Marker);
  shapesLayer : option (list Polyline);
  calls : list LeafletCall
}.

(** ** The JS [Map] of the statistics, in insertion order *)

Module JsMap.

Definition t := list (string * Z).

Fixpoint get (k : string) (m : t) : option Z :=
    match m with
    | [] => None
    | (k', v) :: m' => if String.eqb k' k then Some v else get k m'
    end.

(** An existing key keeps its position, a new key goes last. *)
Fixpoint set (k : string) (v : Z) (m : t) : t :=
    match m with
    | [] => [(k, v)]
    | (k', v') :: m' =>
        if String.eqb k' k then (k', v) :: m' else (k', v') :: set k v m'
    end.

Definition keys (m : t) : list string := map fst m.

End JsMap.

(** [x || 0] on an optional number. *)
Definition or0 (x : option Z) : Z :=
  match x with
  | Some v => if v =? 0 then 0 else v
  | None => 0
  end.

(** ** [Array.prototype.sort] *)

(** The language requires the sort to be stable, and the comparator used
    here is consistent, so the result does not depend on the algorithm:
    insertion from the right is one that computes it (see
    [array_sort_unique] below). *)
Section ArraySort.
Context {A : Type} (cmp : A → A → Z).

Fixpoint sort_insert (x : A) (l : list A) : list A :=
    match l with
    | [] => [x]
    | y :: l' => if cmp x y <=? 0 then x :: y :: l' else y :: sort_insert x l'
    end.

Definition array_sort (l : list A) : list A := foldr sort_insert [] l.
End ArraySort.

(** What a stable sort by decreasing [key] asks of two elements:
    [a] has the larger key, or the keys tie and [a] was before [b]. *)
Definition ranks {A} (key : A → Z) (before : A → A → Prop) (a b : A) : Prop :=
  key b - key a < 0 ∨ (key b - key a = 0 ∧ before a b).

(** [a.slice(0, n)] *)
Definition slice0 {A} (n : nat) (l : list A) : list A := firstn n l.

Record LineStat := { name : string; count : Z }.

Record Stats := {
  busCount : Z;
  tramCount : Z;
  displayedLines : list LineStat;
  totalLines : nat
}.

Record Tally := {
  tally_bus : Z;
  tally_tram : Z;
  linesMap : JsMap.t
}.

(** ** Vocabulary of the statistics *)

(** Position of the first occurrence of [x] in [l] (its length if none). *)
Fixpoint first_index (x : string) (l : list string) : nat :=
  match l with
  | [] => 0%nat
  | y :: l' => if String.eqb y x then 0%nat else S (first_index x l')
  end.

(** Number of occurrences of [x] in [l]. *)
Fixpoint occurrences (x : string) (l : list string) : Z :=
  match l with
  | [] => 0
  | y :: l' => (if String.eqb y x then 1 else 0) + occurrences x l'
  end.

(** The distinct elements of [l], each at its first occurrence. *)
Fixpoint first_occurrences (l : list string) : list string :=
  match l with
  | [] => []
  | x :: l' => x :: List.filter (λ y, negb (String.eqb y x)) (first_occurrences l')
  end.

(** [q] occurs in [s] up to the case of ASCII letters: some substring of
    [s] and [q] have the same lower-case form. *)
Definition occursIgnoringCase (q s : string) : Prop :=
  ∃ pre mid post, s = pre +:+ mid +:+ post ∧
                  Str.asciiLower mid = Str.asciiLower q.

(** ** Small JS primitives *)

(** [Object.values(o)], in property order. *)
Definition Object_values {V} (o : list (string * V)) : list V := map snd o.

(** [set.has(x)] *)
Definition has (s : gset string) (x : string) : bool := bool_decide (x ∈ s).

Definition with_showStops (b : bool) (fs : FilterState) : FilterState :=
  {| showStops := b; showBus := showBus fs; showTram := showTram fs;
     showAllLines := showAllLines fs; searchQuery := searchQuery fs;
     selectedLines := selectedLines fs |}.

Definition with_showBus (b : bool) (fs : FilterState) : FilterState :=
  {| showStops := showStops fs; showBus := b; showTram := showTram fs;
     showAllLines := showAllLines fs; searchQuery := searchQuery fs;
     selectedLines := selectedLines fs |}.

Definition with_showTram (b : bool) (fs : FilterState) : FilterState :=
  {| showStops := showStops fs; showBus := showBus fs; showTram := b;
     showAllLines := showAllLines fs; searchQuery := searchQuery fs;
     selectedLines := selectedLines fs |}.

Definition with_showAllLines (b : bool) (fs : FilterState) : FilterState :=
  {| showStops := showStops fs; showBus := showBus fs; showTram := showTram fs;
     showAllLines := b; searchQuery := searchQuery fs;
     selectedLines := selectedLines fs |}.

Definition with_searchQuery (q : string) (fs : FilterState) : FilterState :=
  {| showStops := showStops fs; showBus := showBus fs; showTram := showTram fs;
     showAllLines := showAllLines fs; searchQuery := q;
     selectedLines := selectedLines fs |}.

Definition with_selectedLines (sel : gset string) (fs : FilterState) : FilterState :=
  {| showStops := showStops fs; showBus := showBus fs; showTram := showTram fs;
     showAllLines := showAllLines fs; searchQuery := searchQuery fs;
     selectedLines := sel |}.

Definition with_filter (fs : FilterState) (app : App) : App :=
  {| filter_state := fs; markersLayer := markersLayer app;
     shapesLayer := shapesLayer app; calls := calls app |}.

(** ** Layer operations *)

Definition clearMarkers (app : App) : App :=
  {| filter_state := filter_state app;
     markersLayer := (λ _, []) <$> markersLayer app;
     shapesLayer := shapesLayer app;
     calls := calls app ++ [ClearMarkers] |}.

Definition addMarker (m : Marker) (app : App) : App :=
  {| filter_state := filter_state app;
     markersLayer := (λ l, l ++ [m]) <$> markersLayer app;
     shapesLayer := shapesLayer app;
     calls := calls app ++ [AddMarker m] |}.

Definition clearShapes (app : App) : App :=
  {| filter_state := filter_state app;
     markersLayer := markersLayer app;
     shapesLayer := (λ _, []) <$> shapesLayer app;
     calls := calls app ++ [ClearShapes] |}.

Definition addPolyline (p : Polyline) (app : App) : App :=
  {| filter_state := filter_state app;
     markersLayer := markersLayer app;
     shapesLayer := (λ l, l ++ [p]) <$> shapesLayer app;
     calls := calls app ++ [AddPolyline p] |}.

(** The calls a handler made, going from [app] to [app']. *)
Definition issued (app app' : App) : list LeafletCall :=
  drop (length (calls app)) (calls app').

(** ** Popup content (lines 217-255) *)

Definition fallbackColor : string := "#3b82f6".

(** [colors[line] || '#3b82f6'] *)
Definition colorOr (colors : gmap string string) (line : string) : string :=
  match colors !! line with
  | Some c => if String.eqb c EmptyString then fallbackColor else c
  | None => fallbackColor
  end.

Definition badge (colors : gmap string string) (line : string) : string :=
  let lineColor := colorOr colors line in
  "<span " +:+ Str.attr "class" "popup-line-badge" +:+ " "
  +:+ Str.attr "style" ("background-color: " +:+ lineColor +:+ ";")
  +:+ ">" +:+ line +:+ "</span>".

Definition linesHtml (colors : gmap string string) (meta : option StopMeta) : string :=
  match meta with
  | Some m => fold_left (λ html line, html +:+ badge colors line) (lines m) EmptyString
  | None => EmptyString
  end.

Definition isAccessible : bool := true.

Definition accessText : string := if isAccessible then "Oui" else "Non".

Definition handicapRow : string :=
  "<div " +:+ Str.attr "class" "popup-row"
  +:+ "><strong>Accès handicapé :</strong> " +:+ accessText +:+ "</div>".

Definition imageBlock (src alt : string) : string :=
  "<div " +:+ Str.attr "class" "popup-image" +:+ "><img "
  +:+ Str.attr "src" src +:+ " " +:+ Str.attr "alt" alt +:+ " "
  +:+ Str.attr "style" "width:100%; height:auto; border-radius:4px; margin-top:10px;"
  +:+ "></div>".

Definition commerceImage : string :=
  imageBlock "https://i.imgur.com/4GEU71O.png" "Commerce Station".

Definition vincentGacheImage : string :=
  imageBlock "https://i.imgur.com/WbbaBkg.jpeg" "Vincent Gâche".

Definition imageHtml (stop : Stop) : string :=
  let html := EmptyString in
  let html := if String.eqb (stop_name stop) "Commerce" then commerceImage else html in
  let html := if String.eqb (stop_name stop) "Vincent Gâche" then vincentGacheImage else html in
  html.

Definition popupContent (colors : gmap string string) (stop : Stop)
    (meta : option StopMeta) : string :=
  Str.nl
  +:+ "      <div " +:+ Str.attr "class" "custom-popup" +:+ ">" +:+ Str.nl
  +:+ "        <div " +:+ Str.attr "class" "popup-header"
  +:+ ">Nom du station : <strong>" +:+ stop_name stop +:+ "</strong></div>" +:+ Str.nl
  +:+ "        <div " +:+ Str.attr "class" "popup-body" +:+ ">" +:+ Str.nl
  +:+ "          <div " +:+ Str.attr "class" "popup-row" +:+ ">" +:+ Str.nl
  +:+ "            <strong>Lignes :</strong>" +:+ Str.nl
  +:+ "            <div " +:+ Str.attr "class" "badges-container" +:+ ">"
  +:+ linesHtml colors meta +:+ "</div>" +:+ Str.nl
  +:+ "          </div>" +:+ Str.nl
  +:+ "          " +:+ handicapRow +:+ Str.nl
  +:+ "          " +:+ imageHtml stop +:+ Str.nl
  +:+ "        </div>" +:+ Str.nl
  +:+ "      </div>" +:+ Str.nl
  +:+ "    ".

(** [meta?.is_tram] used as a condition: absent metadata is falsy. *)
Definition iconFor (meta : option StopMeta) : DivIcon :=
  let isTram := match meta with Some m => is_tram m | None => false end in
  {| iconSvg := if isTram then tramSVG else busSVG;
     colorClass := if isTram then "icon-tram" else "icon-bus" |}.

Definition markerOf (colors : gmap string string) (stop : Stop)
    (meta : option StopMeta) : Marker :=
  {| marker_lat := stop_lat stop; marker_lon := stop_lon stop;
     marker_icon := iconFor meta;
     marker_popup := popupContent colors stop meta |}.

Definition polylineOf (shape : Shape) : Polyline :=
  {| poly_points := points shape; poly_color := color shape;
     poly_weight := 3; poly_opacity := 0x1.3333333333333p-1%float (* 0.6 *);
     poly_popup := "Ligne " +:+ route_name shape |}.

(** ** Arrays held by reference

    The computed properties hand arrays around by reference and Vue keeps
    the last value of each of them until one of its inputs changes. A
    memory holds the arrays by address, in order of allocation, and the
    three cached values; an evaluation reads and writes it, and fails on a
    read at an address that holds no array of the expected kind. *)

Inductive Arr :=
| StopsArr (l : list Stop)
| EntriesArr (l : list (string * Z))
| LinesArr (l : list LineStat).

(** The object returned at line 132, its array by reference. *)
Record StatsRef := {
  ref_busCount : Z;
  ref_tramCount : Z;
  ref_displayedLines : nat;
  ref_totalLines : nat
}.

Record Memory := {
  heap : list Arr;
  cache_byType : option nat;
  cache_visible : option nat;
  cache_stats : option StatsRef
}.

Definition with_heap (h : list Arr) (m : Memory) : Memory :=
  {| heap := h; cache_byType := cache_byType m;
     cache_visible := cache_visible m; cache_stats := cache_stats m |}.

Definition Eval (A : Type) : Type := Memory → option (A * Memory).

Definition ret {A} (x : A) : Eval A := λ m, Some (x, m).

Definition bind {A B} (c : Eval A) (k : A → Eval B) : Eval B :=
  λ m, match c m with
       | Some (x, m') => k x m'
       | None => None
       end.

Notation "'let*' x := c 'in' k" := (bind c (λ x, k))
  (at level 10, x name, c at level 100, k at level 200).

(** A new array. *)
Definition alloc (a : Arr) : Eval nat :=
  λ m, Some (length (heap m), with_heap (heap m ++ [a]) m).

Definition readStops (p : nat) : Eval (list Stop) :=
  λ m, match heap m !! p with
       | Some (StopsArr l) => Some (l, m)
       | _ => None
       end.

Definition readEntries (p : nat) : Eval (list (string * Z)) :=
  λ m, match heap m !! p with
       | Some (EntriesArr l) => Some (l, m)
       | _ => None
       end.

Definition readLines (p : nat) : Eval (list LineStat) :=
  λ m, match heap m !! p with
       | Some (LinesArr l) => Some (l, m)
       | _ => None
       end.

(** [a.sort(cmp)]: the array at [p] is sorted in place. *)
Definition sortInPlace (cmp : string * Z → string * Z → Z) (p : nat) : Eval unit :=
  λ m, match heap m !! p with
       | Some (EntriesArr l) =>
           Some (tt, with_heap (<[p := EntriesArr (array_sort cmp l)]> (heap m)) m)
       | _ => None
       end.

(** The three computed properties: the cached value if there is one, else
    the value computed now, which is kept. *)
Definition cachedByType (compute : Eval nat) : Eval nat :=
  λ m, match cache_byType m with
       | Some p => Some (p, m)
       | None =>
           match compute m with
           | Some (p, m') =>
               Some (p, {| heap := heap m'; cache_byType := Some p;
                           cache_visible := cache_visible m';
                           cache_stats := cache_stats m' |})
           | None => None
           end
       end.

Definition cachedVisible (compute : Eval nat) : Eval nat :=
  λ m, match cache_visible m with
       | Some p => Some (p, m)
       | None =>
           match compute m with
           | Some (p, m') =>
               Some (p, {| heap := heap m'; cache_byType := cache_byType m';
                           cache_visible := Some p;
                           cache_stats := cache_stats m' |})
           | None => None
           end
       end.

Definition cachedStats (compute : Eval StatsRef) : Eval StatsRef :=
  λ m, match cache_stats m with
       | Some r => Some (r, m)
       | None =>
           match compute m with
           | Some (r, m') =>
               Some (r, {| heap := heap m'; cache_byType := cache_byType m';
                           cache_visible := cache_visible m';
                           cache_stats := Some r |})
           | None => None
           end
       end.

(** A ref of the filter state changes: Vue no longer trusts the cached
    value of a computed property that read it. Here all three are
    forgotten, so that each is computed again when next read. *)
Definition invalidate (m : Memory) : Memory :=
  {| heap := heap m; cache_byType := None; cache_visible := None;
     cache_stats := None |}.

(** The dataset array [stopsData] is the first array of the memory. *)
Definition stopsAddr : nat := 0.

(** What a derivation returns: the array of the visible stops and the
    object of the statistics. *)
Record ViewRef := { ref_stops : nat; ref_stats : StatsRef }.

(** Reading results back. *)
Definition stopsAt (h : list Arr) (p : nat) : option (list Stop) :=
  match h !! p with
  | Some (StopsArr l) => Some l
  | _ => None
  end.

Definition statsAt (h : list Arr) (r : StatsRef) : option Stats :=
  match h !! ref_displayedLines r with
  | Some (LinesArr l) =>
      Some {| busCount := ref_busCount r; tramCount := ref_tramCount r;
              displayedLines := l; totalLines := ref_totalLines r |}
  | _ => None
  end.

(** ** Sample datasets *)

(** The two stops of the scenario: a tram stop on T1, a bus stop on L1
    and T1, and one shape for T1. *)
Module Scenario.

Definition S1 : Stop :=
  {| stop_id := "S1"; stop_name := "Commerce";
     stop_lat := 47.25%float; stop_lon := (-1.5)%float |}.

Definition S2 : Stop :=
  {| stop_id := "S2"; stop_name := "Gare Sud";
     stop_lat := 47.125%float; stop_lon := (-1.625)%float |}.

Definition stops : list Stop := [S1; S2].

Definition meta : gmap string StopMeta :=
  <["S1" := {| is_tram := true; lines := ["T1"]; wheelchair := None |}]>
  (<["S2" := {| is_tram := false; lines := ["L1"; "T1"]; wheelchair := None |}]> ∅).

Definition shapeT1 : Shape :=
  {| route_name := "T1"; color := "#00a651";
     points := [[47.25%float; (-1.5)%float]; [47.125%float; (-1.625)%float]] |}.

Definition shapes : list (string * Shape) := [("T1-0", shapeT1)].

End Scenario.

(** A larger network: ten lines, a stop without metadata, a line without
    shape and a shape without colour. *)
Module Network.

Definition commerce : Stop :=
  {| stop_id := "COMM"; stop_name := "Commerce";
     stop_lat := 47.25%float; stop_lon := (-1.5)%float |}.

Definition gache : Stop :=
  {| stop_id := "VGAC"; stop_name := "Vincent Gâche";
     stop_lat := 47.125%float; stop_lon := (-1.5)%float |}.

Definition depot : Stop :=
  {| stop_id := "DEPO"; stop_name := "Dépôt";
     stop_lat := 47.5%float; stop_lon := (-1.75)%float |}.

Definition hub : Stop :=
  {| stop_id := "HUB1"; stop_name := "Pirmil";
     stop_lat := 47.375%float; stop_lon := (-1.625)%float |}.

Definition stops : list Stop := [commerce; depot; gache; hub].

Definition meta : gmap string StopMeta :=
  <["COMM" := {| is_tram := true; lines := ["T1"; "C1"]; wheelchair := Some true |}]>
  (<["VGAC" := {| is_tram := true; lines := ["T2"; "c2"]; wheelchair := None |}]>
  (<["HUB1" := {| is_tram := false;
                  lines := ["C1"; "c2"; "ABC"; "D3"; "23"; "26"; "30"; "42"; "T2"];
                  wheelchair := None |}]> ∅)).

Definition shapeT1 : Shape :=
  {| route_name := "T1"; color := "#00a651";
     points := [[47.25%float; (-1.5)%float]; [47.375%float; (-1.625)%float]] |}.

Definition shapeC1 : Shape :=
  {| route_name := "C1"; color := EmptyString;
     points := [[47.25%float; (-1.5)%float]; [47.375%float; (-1.625)%float]] |}.

Definition shapeT2 : Shape :=
  {| route_name := "T2"; color := "#e2001a";
     points := [[47.125%float; (-1.5)%float]; [47.375%float; (-1.625)%float]] |}.

Definition shapes : list (string * Shape) :=
  [("T1-0", shapeT1); ("C1-0", shapeC1); ("T2-0", shapeT2)].

End Network.

(** ** The dashboard over a dataset *)

Section Dashboard.

Variable stopsData : list Stop.
Variable stopsMeta : gmap string StopMeta.
Variable shapesData : list (string * Shape).

Variable engine : Engine.

(** Lines 63-69: a later shape of the same line overwrites the colour. *)
Definition lineColors : gmap string string :=
  fold_left (λ colors shape, <[route_name shape := color shape]> colors)
            (Object_values shapesData) ∅.

(** Lines 73-82, the callback of the filter. *)
Definition keptByType (fs : FilterState) (stop : Stop) : bool :=
  let meta := stopsMeta !! stop_id stop in
  let isTram := match meta with Some m => is_tram m | None => false end in
  if isTram && negb (showTram fs) then false
  else if negb isTram && negb (showBus fs) then false
  else true.

Definition stopsFilteredByType (fs : FilterState) : list Stop :=
  List.filter (keptByType fs) stopsData.

(** Lines 90-95, the callback of the filter. *)
Definition onSelectedLine (fs : FilterState) (stop : Stop) : bool :=
  match stopsMeta !! stop_id stop with
  | None => false
  | Some meta => existsb (λ line, has (selectedLines fs) line) (lines meta)
  end.

(** Lines 85-96. *)
Definition visibleStops (fs : FilterState) : list Stop :=
  if negb (showStops fs) then []
  else
    let baseStops := stopsFilteredByType fs in
    if (size (selectedLines fs) =? 0)%nat then baseStops
    else List.filter (onSelectedLine fs) baseStops.

(** Line 112. *)
Definition countLine (m : JsMap.t) (line : string) : JsMap.t :=
  JsMap.set line (or0 (JsMap.get line m) + 1) m.

(** Lines 105-115, the callback of the loop. *)
Definition tallyStop (acc : Tally) (stop : Stop) : Tally :=
  match stopsMeta !! stop_id stop with
  | Some meta =>
      {| tally_bus := if is_tram meta then tally_bus acc else tally_bus acc + 1;
         tally_tram := if is_tram meta then tally_tram acc + 1 else tally_tram acc;
         linesMap := fold_left countLine (lines meta) (linesMap acc) |}
  | None => acc
  end.

Definition aggregate (fs : FilterState) : Tally :=
  fold_left tallyStop (stopsFilteredByType fs)
            {| tally_bus := 0; tally_tram := 0; linesMap := [] |}.

(** Line 119, the comparator. *)
Definition byPopularity (a b : string * Z) : Z := b.2 - a.2.

(** Lines 118-120. *)
Definition rankedLines (fs : FilterState) : list LineStat :=
  map (λ e, {| name := e.1; count := e.2 |})
      (array_sort byPopularity (linesMap (aggregate fs))).

(** Lines 123-126. *)
Definition searchedLines (fs : FilterState) : list LineStat :=
  if negb (String.eqb (Str.trim (searchQuery fs)) EmptyString) then
    let query := toLowerCase engine (searchQuery fs) in
    List.filter (λ l, Str.includes (toLowerCase engine (name l)) query)
                (rankedLines fs)
  else rankedLines fs.

(** Lines 99-133. *)
Definition stats (fs : FilterState) : Stats :=
  let sortedLines := searchedLines fs in
  let displayed :=
    if showAllLines fs || negb (String.eqb (searchQuery fs) EmptyString)
    then sortedLines else slice0 6 sortedLines in
  {| busCount := tally_bus (aggregate fs);
     tramCount := tally_tram (aggregate fs);
     displayedLines := displayed;
     totalLines := length sortedLines |}.

(** Lines 190-192, the two guards of the loop body. *)
Definition shapeShown (fs : FilterState) (shape : Shape) : bool :=
  if negb (showBus fs) && negb (showTram fs) then false
  else if (0 <? size (selectedLines fs))%nat
          && negb (has (selectedLines fs) (route_name shape)) then false
  else true.

(** Lines 184-202. *)
Definition drawShapes (app : App) : App :=
  match shapesLayer app with
  | None => app
  | Some _ =>
      fold_left
        (λ a shape,
           if shapeShown (filter_state a) shape
           then addPolyline (polylineOf shape) a else a)
        (Object_values shapesData) (clearShapes app)
  end.

(** Lines 207-272. *)
Definition drawStops (app : App) : App :=
  match markersLayer app with
  | None => app
  | Some _ =>
      let colors := lineColors in
      fold_left
        (λ a stop,
           let meta := stopsMeta !! stop_id stop in
           addMarker (markerOf colors stop meta) a)
        (visibleStops (filter_state app)) (clearMarkers app)
  end.

(** Lines 300-303. *)
Definition redraw (app : App) : App := drawShapes (drawStops app).

(** Lines 275-278. *)
Definition toggleStopsMaster (app : App) : App :=
  let fs := filter_state app in
  drawStops (with_filter (with_showStops (negb (showStops fs)) fs) app).

Inductive TransportType := bus | tram.

(** Lines 280-284. *)
Definition toggleType (type : TransportType) (app : App) : App :=
  let fs := filter_state app in
  let fs := match type with bus => with_showBus (negb (showBus fs)) fs | tram => fs end in
  let fs := match type with tram => with_showTram (negb (showTram fs)) fs | bus => fs end in
  redraw (with_filter fs app).

(** Lines 286-293. *)
Definition toggleLine (lineName : string) (app : App) : App :=
  let fs := filter_state app in
  let sel :=
    if has (selectedLines fs) lineName
    then selectedLines fs ∖ {[lineName]}
    else selectedLines fs ∪ {[lineName]} in
  redraw (with_filter (with_selectedLines sel fs) app).

(** Lines 295-298. *)
Definition clearLineSelection (app : App) : App :=
  redraw (with_filter (with_selectedLines ∅ (filter_state app)) app).

(** Line 348, the two-way binding of the search box. *)
Definition setSearchQuery (q : string) (app : App) : App :=
  with_filter (with_searchQuery q (filter_state app)) app.

(** Line 371, the inline handler of the link. *)
Definition toggleShowAllLines (app : App) : App :=
  let fs := filter_state app in
  with_filter (with_showAllLines (negb (showAllLines fs)) fs) app.

(** Lines 144-178, as far as the layers go; [container] tells whether
    the DOM element is there. *)
Definition initMap (container : bool) (app : App) : App :=
  if negb container then app
  else {| filter_state := filter_state app; markersLayer := Some [];
          shapesLayer := Some []; calls := calls app |}.

(** Lines 136-142. *)
Definition onMounted (container : bool) (app : App) : App :=
  if container then drawStops (drawShapes (initMap container app)) else app.

(** The application when the script has run and nothing is mounted. *)
Definition setup : App :=
  {| filter_state := initialFilter; markersLayer := None;
     shapesLayer := None; calls := [] |}.

(** The user-facing actions. *)
Inductive Action :=
| ToggleStopsMaster
| ToggleType (type : TransportType)
| ToggleLine (lineName : string)
| ClearLineSelection
| SetSearchQuery (q : string)
| ToggleShowAllLines.

Definition handle (a : Action) (app : App) : App :=
  match a with
  | ToggleStopsMaster => toggleStopsMaster app
  | ToggleType type => toggleType type app
  | ToggleLine lineName => toggleLine lineName app
  | ClearLineSelection => clearLineSelection app
  | SetSearchQuery q => setSearchQuery q app
  | ToggleShowAllLines => toggleShowAllLines app
  end.


(** ** The derived view

    The source has no function of that name: the three parts are the
    computed [visibleStops], the shapes that pass the guards of
    [drawShapes], and the [displayedLines] of [stats]. *)

Definition visibleShapes (fs : FilterState) : list Shape :=
  List.filter (shapeShown fs) (Object_values shapesData).

Record View := {
  view_stops : list Stop;
  view_shapes : list Shape;
  view_lineStats : list LineStat
}.

Definition deriveView (fs : FilterState) : View :=
  {| view_stops := visibleStops fs;
     view_shapes := visibleShapes fs;
     view_lineStats := displayedLines (stats fs) |}.

(** The lines of a stop as the statistics see them, and the sequence of
    line occurrences met when scanning the type-filtered stops. *)
Definition linesOf (stop : Stop) : list string :=
  match stopsMeta !! stop_id stop with
  | Some m => lines m
  | None => []
  end.

Definition lineScan (fs : FilterState) : list string :=
  flat_map linesOf (stopsFilteredByType fs).

(** Order of two displayed lines: more stops first, and on a tie the
    line met first in the scan. *)
Definition ranksBefore (scan : list string) (a b : LineStat) : Prop :=
  count b < count a ∨
  (count a = count b ∧ (first_index (name a) scan < first_index (name b) scan)%nat).

(** The mode of a stop as the type filter sees it. *)
Definition isTramStop (stop : Stop) : bool :=
  match stopsMeta !! stop_id stop with
  | Some m => is_tram m
  | None => false
  end.

(** The markers and polylines a redraw puts on the layers. *)
Definition markersOf (fs : FilterState) : list Marker :=
  map (λ stop, markerOf lineColors stop (stopsMeta !! stop_id stop)) (visibleStops fs).

Definition polylinesOf (fs : FilterState) : list Polyline :=
  map polylineOf (visibleShapes fs).

(** Both layers show the derived view of the current filter state. *)
Definition inSync (app : App) : Prop :=
  markersLayer app = Some (markersOf (filter_state app)) ∧
  shapesLayer app = Some (polylinesOf (filter_state app)).

(** ** The derivation on arrays *)

(** Lines 73-82. *)
Definition stopsFilteredByTypeV (fs : FilterState) : Eval nat :=
  cachedByType
    (let* l := readStops stopsAddr in
     alloc (StopsArr (List.filter (keptByType fs) l))).

(** Lines 85-96: without selection the array returned is the array of
    [stopsFilteredByType] itself. *)
Definition visibleStopsV (fs : FilterState) : Eval nat :=
  cachedVisible
    (if negb (showStops fs) then alloc (StopsArr [])
     else
       let* baseStops := stopsFilteredByTypeV fs in
       if (size (selectedLines fs) =? 0)%nat then ret baseStops
       else
         let* l := readStops baseStops in
         alloc (StopsArr (List.filter (onSelectedLine fs) l))).

(** Lines 99-133: the counters and the map are locals of the callback;
    the sort works in place on the array made at line 118. *)
Definition statsV (fs : FilterState) : Eval StatsRef :=
  cachedStats
    (let* baseStops := stopsFilteredByTypeV fs in
     let* l := readStops baseStops in
     let tally :=
       fold_left tallyStop l {| tally_bus := 0; tally_tram := 0; linesMap := [] |} in
     let* entries := alloc (EntriesArr (linesMap tally)) in
     let* _ := sortInPlace byPopularity entries in
     let* es := readEntries entries in
     let* mapped :=
       alloc (LinesArr (map (λ e, {| name := e.1; count := e.2 |}) es)) in
     let* sortedLines :=
       if negb (String.eqb (Str.trim (searchQuery fs)) EmptyString) then
         let* ls := readLines mapped in
         alloc (LinesArr
                  (List.filter
                     (λ l, Str.includes (toLowerCase engine (name l))
                                        (toLowerCase engine (searchQuery fs)))
                     ls))
       else ret mapped in
     let* ls := readLines sortedLines in
     let* displayed :=
       if showAllLines fs || negb (String.eqb (searchQuery fs) EmptyString)
       then ret sortedLines
       else alloc (LinesArr (slice0 6 ls)) in
     ret {| ref_busCount := tally_bus tally; ref_tramCount := tally_tram tally;
            ref_displayedLines := displayed; ref_totalLines := length ls |}).

Definition deriveViewV (fs : FilterState) : Eval ViewRef :=
  let* stops := visibleStopsV fs in
  let* st := statsV fs in
  ret {| ref_stops := stops; ref_stats := st |}.

(** The dataset is in place and every cached value is the value of the
    current filter state. *)
Definition Coherent (fs : FilterState) (m : Memory) : Prop :=
  stopsAt (heap m) stopsAddr = Some stopsData ∧
  (∀ p, cache_byType m = Some p →
        stopsAt (heap m) p = Some (stopsFilteredByType fs)) ∧
  (∀ p, cache_visible m = Some p →
        stopsAt (heap m) p = Some (visibleStops fs)) ∧
  (∀ r, cache_stats m = Some r → statsAt (heap m) r = Some (stats fs)).

(** [c] runs from [m] and its result and final memory satisfy [P]. *)
Definition Runs {A} (c : Eval A) (m : Memory) (P : A → Memory → Prop) : Prop :=
  ∃ x m', c m = Some (x, m') ∧ P x m'.

(** The memory when the component is set up: the dataset, and nothing
    computed yet. *)
Definition initialMemory : Memory :=
  {| heap := [StopsArr stopsData]; cache_byType := None;
     cache_visible := None; cache_stats := None |}.

(** ** Facts about the layers *)

Lemma has_true (s : gset string) (x : string) : has s x = true ↔ x ∈ s.
Proof. unfold has. apply bool_decide_eq_true. Qed.

Lemma size_zero_empty (s : gset string) : (size s =? 0)%nat = true ↔ s = ∅.
Proof.
  rewrite Nat.eqb_eq, size_empty_iff. by unfold_leibniz.
Qed.

Lemma draw_shapes_loop (fs : FilterState) (shapes : list Shape) :
  ∀ ms l cs,
    fold_left
      (λ a shape,
         if shapeShown (filter_state a) shape
         then addPolyline (polylineOf shape) a else a)
      shapes
      {| filter_state := fs; markersLayer := ms; shapesLayer := Some l; calls := cs |}
    = {| filter_state := fs; markersLayer := ms;
         shapesLayer := Some (l ++ map polylineOf (List.filter (shapeShown fs) shapes));
         calls := cs ++ map AddPolyline (map polylineOf (List.filter (shapeShown fs) shapes)) |}.
Proof.
  induction shapes as [|shape shapes IH]; intros ms l cs; simpl.
  - by rewrite !app_nil_r.
  - destruct (shapeShown fs shape); simpl.
    + unfold addPolyline; simpl. rewrite IH. by rewrite <- !app_assoc.
    + apply IH.
Qed.

Lemma drawShapes_eq (app : App) :
  drawShapes app =
  match shapesLayer app with
  | None => app
  | Some _ =>
      {| filter_state := filter_state app; markersLayer := markersLayer app;
         shapesLayer := Some (polylinesOf (filter_state app));
         calls := calls app ++ ClearShapes :: map AddPolyline (polylinesOf (filter_state app)) |}
  end.
Proof.
  unfold drawShapes. destruct app as [fs ms [l|] cs]; simpl; [|done].
  unfold clearShapes; simpl. rewrite draw_shapes_loop. simpl.
  by rewrite <- app_assoc.
Qed.

Lemma draw_stops_loop (stops : list Stop) :
  ∀ fs l ss cs,
    fold_left
      (λ a stop,
         let meta := stopsMeta !! stop_id stop in
         addMarker (markerOf lineColors stop meta) a)
      stops
      {| filter_state := fs; markersLayer := Some l; shapesLayer := ss; calls := cs |}
    = {| filter_state := fs;
         markersLayer :=
           Some (l ++ map (λ stop, markerOf lineColors stop (stopsMeta !! stop_id stop)) stops);
         shapesLayer := ss;
         calls := cs ++ map AddMarker
                    (map (λ stop, markerOf lineColors stop (stopsMeta !! stop_id stop)) stops) |}.
Proof.
  induction stops as [|stop stops IH]; intros fs l ss cs; simpl.
  - by rewrite !app_nil_r.
  - unfold addMarker at 2; simpl. rewrite IH. by rewrite <- !app_assoc.
Qed.

Lemma drawStops_eq (app : App) :
  drawStops app =
  match markersLayer app with
  | None => app
  | Some _ =>
      {| filter_state := filter_state app;
         markersLayer := Some (markersOf (filter_state app));
         shapesLayer := shapesLayer app;
         calls := calls app ++ ClearMarkers :: map AddMarker (markersOf (filter_state app)) |}
  end.
Proof.
  unfold drawStops. destruct app as [fs [l|] ss cs]; simpl; [|done].
  unfold clearMarkers; simpl. rewrite draw_stops_loop. simpl.
  by rewrite <- app_assoc.
Qed.

(** ** Stop filter *)

Lemma keptByType_spec (fs : FilterState) (s : Stop) :
  keptByType fs s = true ↔
  (isTramStop s = true ∧ showTram fs = true) ∨
  (isTramStop s = false ∧ showBus fs = true).
Proof.
  unfold keptByType, isTramStop.
  destruct (stopsMeta !! stop_id s) as [m|]; simpl;
    [destruct (is_tram m)|]; destruct (showTram fs), (showBus fs); simpl;
    naive_solver.
Qed.

Lemma onSelectedLine_spec (fs : FilterState) (s : Stop) :
  onSelectedLine fs s = true ↔
  ∃ meta line, stopsMeta !! stop_id s = Some meta ∧
               line ∈ lines meta ∧ line ∈ selectedLines fs.
Proof.
  unfold onSelectedLine. destruct (stopsMeta !! stop_id s) as [m|].
  - rewrite existsb_exists. split.
    + intros (line & Hin & Hsel). exists m, line.
      by rewrite list_elem_of_In, <- has_true.
    + intros (meta & line & [= <-] & Hin & Hsel). exists line.
      by rewrite <- list_elem_of_In, has_true.
  - split; [done | by intros (? & ? & ? & _)].
Qed.

Lemma elem_of_stopsFilteredByType (fs : FilterState) (s : Stop) :
  s ∈ stopsFilteredByType fs ↔ s ∈ stopsData ∧ keptByType fs s = true.
Proof.
  unfold stopsFilteredByType. by rewrite !list_elem_of_In, filter_In.
Qed.

Lemma elem_of_visibleStops (fs : FilterState) (s : Stop) :
  s ∈ visibleStops fs ↔
  s ∈ stopsData ∧
  showStops fs = true ∧
  ((isTramStop s = true ∧ showTram fs = true) ∨
   (isTramStop s = false ∧ showBus fs = true)) ∧
  (selectedLines fs = ∅ ∨
   ∃ meta line, stopsMeta !! stop_id s = Some meta ∧
                line ∈ lines meta ∧ line ∈ selectedLines fs).
Proof.
  unfold visibleStops.
  destruct (showStops fs); simpl.
  - destruct (size (selectedLines fs) =? 0)%nat eqn:Hsz.
    + apply size_zero_empty in Hsz.
      rewrite elem_of_stopsFilteredByType, keptByType_spec. naive_solver.
    + assert (selectedLines fs ≠ ∅) as Hne.
      { intros He. apply size_zero_empty in He. congruence. }
      rewrite list_elem_of_In, filter_In, <- list_elem_of_In.
      rewrite elem_of_stopsFilteredByType, keptByType_spec, onSelectedLine_spec.
      naive_solver.
  - split; [by intros ?%elem_of_nil | naive_solver].
Qed.

(** C1: a stop is among the visible stops exactly when the master switch
    is on, its mode (bus when it has no metadata) is switched on, and
    either no line is selected or one of the lines of its metadata is
    selected; with the master switch off there is no visible stop. *)
Theorem visibleStops_iff (fs : FilterState) :
  (∀ s : Stop,
     s ∈ visibleStops fs ↔
     s ∈ stopsData ∧
     showStops fs = true ∧
     ((isTramStop s = true ∧ showTram fs = true) ∨
      (isTramStop s = false ∧ showBus fs = true)) ∧
     (selectedLines fs = ∅ ∨
      ∃ meta line, stopsMeta !! stop_id s = Some meta ∧
                   line ∈ lines meta ∧ line ∈ selectedLines fs)) ∧
  (∀ s : Stop, stopsMeta !! stop_id s = None →
     s ∈ visibleStops fs ↔
     s ∈ stopsData ∧ showStops fs = true ∧ showBus fs = true ∧
     selectedLines fs = ∅) ∧
  visibleStops (with_showStops false fs) = [].
Proof.
  split; [apply elem_of_visibleStops|]. split; [|done].
  intros s Hnone. rewrite elem_of_visibleStops. unfold isTramStop. rewrite Hnone.
  naive_solver.
Qed.

(** ** Shape filter *)

Lemma shapeShown_spec (fs : FilterState) (shape : Shape) :
  shapeShown fs shape = true ↔
  (showBus fs = true ∨ showTram fs = true) ∧
  (selectedLines fs = ∅ ∨ route_name shape ∈ selectedLines fs).
Proof.
  unfold shapeShown.
  destruct (showBus fs), (showTram fs); simpl; try naive_solver.
  all: destruct (0 <? size (selectedLines fs))%nat eqn:Hsz; simpl.
  all: try (apply Nat.ltb_ge in Hsz;
            assert (selectedLines fs = ∅)
              by (apply size_zero_empty, Nat.eqb_eq; lia); naive_solver).
  all: apply Nat.ltb_lt in Hsz;
       assert (selectedLines fs ≠ ∅)
         by (intros He; rewrite He, size_empty in Hsz; lia).
  all: destruct (has (selectedLines fs) (route_name shape)) eqn:Hhas; simpl.
  all: try (apply has_true in Hhas; naive_solver).
  all: assert (route_name shape ∉ selectedLines fs)
         by (rewrite <- has_true; congruence); naive_solver.
Qed.

Lemma elem_of_visibleShapes (fs : FilterState) (shape : Shape) :
  shape ∈ visibleShapes fs ↔
  shape ∈ Object_values shapesData ∧ shapeShown fs shape = true.
Proof. unfold visibleShapes. by rewrite !list_elem_of_In, filter_In. Qed.

Lemma filter_all_true {A} (f : A → bool) (l : list A) :
  (∀ x, f x = true) → List.filter f l = l.
Proof.
  intros Hf. induction l as [|x l IH]; simpl; [done|].
  by rewrite Hf, IH.
Qed.

(** C2: once the layer exists, [drawShapes] leaves on it one polyline per
    shape that passes the shape filter, in dataset order; a shape passes
    iff one of the two modes is on and either no line is selected or its
    line is selected; with both modes off nothing is drawn, and with only
    the tram mode on and no selection every shape is drawn. *)
Theorem drawShapes_filter (app : App) (old : list Polyline) :
  shapesLayer app = Some old →
  let fs := filter_state app in
  shapesLayer (drawShapes app) = Some (map polylineOf (visibleShapes fs)) ∧
  (∀ shape : Shape,
     shape ∈ visibleShapes fs ↔
     shape ∈ Object_values shapesData ∧
     (showBus fs = true ∨ showTram fs = true) ∧
     (selectedLines fs = ∅ ∨ route_name shape ∈ selectedLines fs)) ∧
  (showBus fs = false → showTram fs = false → visibleShapes fs = []) ∧
  (showBus fs = false → showTram fs = true → selectedLines fs = ∅ →
   visibleShapes fs = Object_values shapesData).
Proof.
  intros Hl fs. split; [|split; [|split]].
  - rewrite drawShapes_eq, Hl. done.
  - intros shape. by rewrite elem_of_visibleShapes, shapeShown_spec.
  - intros Hb Ht. unfold visibleShapes.
    induction (Object_values shapesData) as [|x l IH]; simpl; [done|].
    unfold shapeShown at 1. by rewrite Hb, Ht.
  - intros Hb Ht Hs. apply filter_all_true. intros x.
    apply shapeShown_spec. auto.
Qed.

(** C10: the visible shapes, and so what [drawShapes] puts on the layer,
    depend on the filter state only through the two mode flags and the
    selected lines; switching the stops off leaves the polylines alone. *)
Theorem visibleShapes_independent (fs1 fs2 : FilterState) :
  showBus fs1 = showBus fs2 →
  showTram fs1 = showTram fs2 →
  selectedLines fs1 = selectedLines fs2 →
  visibleShapes fs1 = visibleShapes fs2 ∧
  (∀ app, shapesLayer (drawShapes (with_filter fs1 app))
          = shapesLayer (drawShapes (with_filter fs2 app))) ∧
  (∀ app, filter_state app = fs1 →
          shapesLayer (toggleStopsMaster app) = shapesLayer app ∧
          visibleShapes (filter_state (toggleStopsMaster app)) = visibleShapes fs1).
Proof.
  intros Hb Ht Hs.
  assert (Hv : ∀ f1 f2, showBus f1 = showBus f2 → showTram f1 = showTram f2 →
                 selectedLines f1 = selectedLines f2 →
                 visibleShapes f1 = visibleShapes f2).
  { intros f1 f2 H1 H2 H3. unfold visibleShapes. apply filter_ext. intros shape.
    unfold shapeShown. by rewrite H1, H2, H3. }
  split; [by apply Hv|]. split.
  - intros app. rewrite !drawShapes_eq. simpl. unfold polylinesOf.
    destruct (shapesLayer app); [|done]. by rewrite (Hv fs1 fs2).
  - intros app <-. unfold toggleStopsMaster. rewrite drawStops_eq. simpl.
    destruct (markersLayer app); simpl; (split; [done|]); by apply Hv.
Qed.

(** ** Sorting *)

Lemma sublist_StronglySorted {A} (R : A → A → Prop) (l1 l2 : list A) :
  l1 `sublist_of` l2 → StronglySorted R l2 → StronglySorted R l1.
Proof.
  induction 1 as [|x l1 l2 Hsub IH|x l1 l2 Hsub IH]; intros Hs.
  - constructor.
  - apply StronglySorted_cons in Hs as [Hx Hs]. constructor; [by apply IH|].
    rewrite Forall_forall in Hx |- *. intros y Hy. apply Hx.
    by eapply elem_of_sublist.
  - apply StronglySorted_cons in Hs as [_ Hs]. by apply IH.
Qed.

Lemma sublist_bool_filter {A} (f : A → bool) (l : list A) :
  List.filter f l `sublist_of` l.
Proof.
  induction l as [|x l IH]; simpl; [constructor|].
  destruct (f x); by constructor.
Qed.

Lemma StronglySorted_map {A B} (R : B → B → Prop) (f : A → B) (l : list A) :
  StronglySorted (λ a b, R (f a) (f b)) l → StronglySorted R (map f l).
Proof.
  induction 1 as [|x l Hs IH Hx]; simpl; constructor; [done|].
  by apply Forall_map.
Qed.

Lemma StronglySorted_weaken {A} (R1 R2 : A → A → Prop) (l : list A) :
  (∀ a b, a ∈ l → b ∈ l → R1 a b → R2 a b) →
  StronglySorted R1 l → StronglySorted R2 l.
Proof.
  intros HR Hs. induction Hs as [|x l Hs IH Hx]; constructor.
  - apply IH. intros a b Ha Hb. apply HR; by right.
  - rewrite Forall_forall in Hx |- *. intros y Hy.
    apply HR; [by left | by right | by apply Hx].
Qed.

Section SortFacts.

Context {A : Type} (key : A → Z) (before : A → A → Prop).

(** The comparator of line 119 on a key: larger keys first. *)
Let cmp (a b : A) : Z := key b - key a.


Lemma sort_insert_perm (x : A) (l : list A) : sort_insert cmp x l ≡ₚ x :: l.
Proof.
  induction l as [|y l IH]; simpl; [done|].
  destruct (cmp x y <=? 0); [done|].
  rewrite IH. apply perm_swap.
Qed.

Lemma array_sort_perm (l : list A) : array_sort cmp l ≡ₚ l.
Proof.
  induction l as [|x l IH]; simpl; [done|].
  by rewrite sort_insert_perm, IH.
Qed.

Lemma sort_insert_ranked (x : A) (l : list A) :
  Forall (before x) l →
  StronglySorted (ranks key before) l → StronglySorted (ranks key before) (sort_insert cmp x l).
Proof.
  intros Hx Hs. induction Hs as [|y l Hs IH Hy]; simpl.
  - repeat constructor.
  - apply Forall_cons in Hx as [Hxy Hxl].
    destruct (cmp x y <=? 0) eqn:Hc.
    + apply Z.leb_le in Hc. constructor; [by constructor|].
      constructor.
      * unfold ranks, cmp in *.
        destruct (Z.eq_dec (key y - key x) 0); [right|left; lia]. done.
      * rewrite Forall_forall in Hy, Hxl |- *. intros z Hz.
        specialize (Hy z Hz). specialize (Hxl z Hz).
        unfold ranks, cmp in *.
        destruct (Z.eq_dec (key z - key x) 0); [right|left; lia]. done.
    + apply Z.leb_gt in Hc. constructor; [by apply IH|].
      rewrite sort_insert_perm. constructor; [|done].
      unfold ranks, cmp in *. lia.
Qed.

Lemma array_sort_ranked (l : list A) :
  StronglySorted before l → StronglySorted (ranks key before) (array_sort cmp l).
Proof.
  induction 1 as [|x l Hs IH Hx]; simpl; [constructor|].
  apply sort_insert_ranked; [|done]. by rewrite array_sort_perm.
Qed.

(** Whatever algorithm the engine runs, a stable sort of [l] with this
    comparator returns the array computed here. *)
Lemma array_sort_unique (l l' : list A) :
  (∀ a b, before a b → before b a → False) →
  StronglySorted before l →
  l' ≡ₚ l → StronglySorted (ranks key before) l' → l' = array_sort cmp l.
Proof.
  intros Hasym Hl Hperm Hs.
  apply (StronglySorted_unique_strong (ranks key before)); [|done| |].
  - intros a b _ _ Hab Hba. exfalso.
    unfold ranks, cmp in *.
    destruct Hab as [?|[? ?]], Hba as [?|[? ?]]; try lia.
    by apply (Hasym a b).
  - by apply array_sort_ranked.
  - by rewrite array_sort_perm.
Qed.

End SortFacts.

(** ** Strings *)

Lemma startsWith_spec (s q : string) :
  Str.startsWith s q = true ↔ ∃ post, s = q +:+ post.
Proof.
  revert s. induction q as [|b q IH]; intros s; simpl.
  - split; [by exists s | done].
  - destruct s as [|a s].
    + split; [done | by intros [post ?]].
    + rewrite andb_true_iff, Ascii.eqb_eq, IH. split.
      * intros [-> [post ->]]. by exists post.
      * intros [post [= -> ->]]. split; [done | by exists post].
Qed.

Lemma includes_spec (s q : string) :
  Str.includes s q = true ↔ ∃ pre post, s = pre +:+ q +:+ post.
Proof.
  induction s as [|a s IH]; simpl.
  - rewrite orb_false_r, startsWith_spec. split.
    + intros [post ->]. by exists EmptyString, post.
    + intros (pre & post & H). destruct pre; [by exists post|done].
  - rewrite orb_true_iff, startsWith_spec, IH. split.
    + intros [[post ->]|(pre & post & ->)].
      * by exists EmptyString, post.
      * by exists (String a pre), post.
    + intros (pre & post & H). destruct pre as [|c pre]; simpl in H.
      * left. by exists post.
      * injection H as -> ->. right. by exists pre, post.
Qed.

Lemma asciiLower_app (a b : string) :
  Str.asciiLower (a +:+ b) = Str.asciiLower a +:+ Str.asciiLower b.
Proof. induction a as [|c a IH]; simpl; [done|]. by rewrite IH. Qed.

Lemma asciiLower_split (s a b : string) :
  Str.asciiLower s = a +:+ b →
  ∃ s1 s2, s = s1 +:+ s2 ∧ Str.asciiLower s1 = a ∧ Str.asciiLower s2 = b.
Proof.
  revert s. induction a as [|c a IH]; intros s H; simpl in H.
  - by exists EmptyString, s.
  - destruct s as [|d s]; simpl in H; [done|].
    injection H as Hc H. destruct (IH s H) as (s1 & s2 & -> & <- & <-).
    exists (String d s1), s2. simpl. by rewrite Hc.
Qed.

(** With the lower-casing of the examples, the test of line 125 is a
    substring test up to letter case. *)
Lemma includes_asciiLower (s q : string) :
  Str.includes (Str.asciiLower s) (Str.asciiLower q) = true ↔
  occursIgnoringCase q s.
Proof.
  rewrite includes_spec. unfold occursIgnoringCase. split.
  - intros (pre' & post' & H).
    apply asciiLower_split in H as (pre & rest & -> & <- & H).
    apply asciiLower_split in H as (mid & post & -> & Hmid & <-).
    by exists pre, mid, post.
  - intros (pre & mid & post & -> & Hmid).
    exists (Str.asciiLower pre), (Str.asciiLower post).
    by rewrite !asciiLower_app, Hmid.
Qed.

Lemma utf8_not_empty (cp : N) : Str.utf8 cp ≠ EmptyString.
Proof.
  unfold Str.utf8.
  destruct (cp <? 128)%N; [done|]. destruct (cp <? 2048)%N; [done|].
  destruct (cp <? 65536)%N; [done|]. by destruct (cp <? 1114112)%N.
Qed.

Lemma fromCodePoints_empty (l : list N) :
  Str.fromCodePoints l = EmptyString ↔ l = [].
Proof.
  destruct l as [|cp l]; [done|]. split; [|done].
  unfold Str.fromCodePoints. simpl. pose proof (utf8_not_empty cp) as Hne.
  destruct (Str.utf8 cp); [done|]. intros H. by inversion H.
Qed.

Lemma dropWhite_empty (l : list N) :
  Str.dropWhite l = [] ↔ forallb Str.isWhiteSpace l = true.
Proof.
  induction l as [|cp l IH]; simpl; [done|].
  destruct (Str.isWhiteSpace cp); simpl; [done|]. split; done.
Qed.

Lemma forallb_dropWhite (l : list N) :
  forallb Str.isWhiteSpace (Str.dropWhite l) = forallb Str.isWhiteSpace l.
Proof.
  induction l as [|cp l IH]; simpl; [done|].
  destruct (Str.isWhiteSpace cp) eqn:E; simpl; [done|]. by rewrite E.
Qed.

Lemma forallb_rev {A} (f : A → bool) (l : list A) :
  forallb f (rev l) = forallb f l.
Proof.
  induction l as [|x l IH]; simpl; [done|].
  rewrite forallb_app, IH. simpl. rewrite andb_true_r. apply andb_comm.
Qed.

(** [q.trim() !== ''] holds iff [q] has a code point that is not white
    space. *)
Lemma trim_blank (q : string) :
  String.eqb (Str.trim q) EmptyString = Str.blank q.
Proof.
  unfold Str.blank.
  destruct (forallb Str.isWhiteSpace (Str.codePoints q)) eqn:Hw.
  - apply String.eqb_eq, fromCodePoints_empty. unfold Str.trim.
    apply (f_equal (@rev N)) with (y := []). apply dropWhite_empty.
    by rewrite forallb_rev, forallb_dropWhite.
  - apply String.eqb_neq. intros H. apply fromCodePoints_empty in H.
    assert (H' : Str.dropWhite (rev (Str.dropWhite (Str.codePoints q))) = []).
    { destruct (Str.dropWhite (rev _)); [done|].
      simpl in H. by destruct (rev l). }
    apply dropWhite_empty in H'.
    rewrite forallb_rev, forallb_dropWhite, Hw in H'. done.
Qed.

(** ** Counting occurrences in a JS [Map] *)

Lemma occurrences_app (x : string) (p q : list string) :
  occurrences x (p ++ q) = occurrences x p + occurrences x q.
Proof. induction p as [|y p IH]; simpl; [done|]. rewrite IH. lia. Qed.

Lemma occurrences_nonneg (x : string) (l : list string) : 0 ≤ occurrences x l.
Proof. induction l as [|y l IH]; simpl; [done|]. destruct (String.eqb y x); lia. Qed.

Lemma occurrences_pos (x : string) (l : list string) :
  0 < occurrences x l ↔ x ∈ l.
Proof.
  induction l as [|y l IH]; simpl.
  - split; [lia | by intros ?%elem_of_nil].
  - rewrite elem_of_cons. pose proof (occurrences_nonneg x l).
    destruct (String.eqb_spec y x) as [->|Hne].
    + split; [auto | lia].
    + split.
      * intros. right. apply IH. lia.
      * intros [->|Hin]; [done|]. apply IH in Hin. lia.
Qed.

Lemma occurrences_zero (x : string) (l : list string) :
  x ∉ l → occurrences x l = 0.
Proof.
  intros Hx. pose proof (occurrences_nonneg x l).
  destruct (Z.eq_dec (occurrences x l) 0) as [|Hne]; [done|].
  exfalso. apply Hx, occurrences_pos. lia.
Qed.

Lemma elem_of_bool_filter {A} (f : A → bool) (l : list A) (x : A) :
  x ∈ List.filter f l ↔ x ∈ l ∧ f x = true.
Proof. by rewrite !list_elem_of_In, filter_In. Qed.

Lemma bool_filter_app {A} (f : A → bool) (l k : list A) :
  List.filter f (l ++ k) = List.filter f l ++ List.filter f k.
Proof. apply List.filter_app. Qed.

Lemma elem_of_first_occurrences (x : string) (l : list string) :
  x ∈ first_occurrences l ↔ x ∈ l.
Proof.
  induction l as [|y l IH]; simpl; [done|].
  rewrite !elem_of_cons, elem_of_bool_filter, IH.
  destruct (String.eqb_spec x y) as [->|Hne]; [naive_solver|].
  split; [naive_solver|]. intros [?|?]; [done|]. by right.
Qed.

Lemma NoDup_first_occurrences (l : list string) : NoDup (first_occurrences l).
Proof.
  induction l as [|y l IH]; simpl; constructor.
  - rewrite elem_of_bool_filter, String.eqb_refl. naive_solver.
  - exact (sublist_NoDup _ _ IH (sublist_bool_filter _ _)).
Qed.

Lemma first_occurrences_snoc (p : list string) (x : string) :
  first_occurrences (p ++ [x]) =
  if decide (x ∈ p) then first_occurrences p else first_occurrences p ++ [x].
Proof.
  induction p as [|y p IH]; simpl; [done|].
  rewrite IH. clear IH.
  destruct (decide (x ∈ p)) as [Hin|Hnin].
  - rewrite (decide_True (P := x ∈ y :: p)); [done|].
    rewrite elem_of_cons. auto.
  - rewrite bool_filter_app. simpl.
    destruct (String.eqb_spec x y) as [->|Hne]; simpl.
    + rewrite (decide_True (P := y ∈ y :: p)); [by rewrite app_nil_r|].
      rewrite elem_of_cons. auto.
    + rewrite (decide_False (P := x ∈ y :: p)); [done|].
      rewrite elem_of_cons. naive_solver.
Qed.

Lemma first_index_app_l (x : string) (p q : list string) :
  x ∈ p → first_index x (p ++ q) = first_index x p.
Proof.
  induction p as [|y p IH]; simpl; [by intros ?%elem_of_nil|].
  intros Hin. destruct (String.eqb_spec y x) as [->|Hne]; [done|].
  f_equal. apply IH. apply elem_of_cons in Hin as [->|?]; done.
Qed.

Lemma first_index_lt (x : string) (l : list string) :
  x ∈ l → (first_index x l < length l)%nat.
Proof.
  induction l as [|y l IH]; simpl; [by intros ?%elem_of_nil|].
  intros Hin. destruct (String.eqb_spec y x) as [->|Hne]; [lia|].
  apply elem_of_cons in Hin as [->|?]; [done|]. apply IH in H. lia.
Qed.

Lemma first_index_lookup (x : string) (l : list string) :
  x ∈ l → l !! first_index x l = Some x.
Proof.
  induction l as [|y l IH]; simpl; [by intros ?%elem_of_nil|].
  intros Hin. destruct (String.eqb_spec y x) as [->|Hne]; [done|].
  apply elem_of_cons in Hin as [->|?]; [done|]. by apply IH.
Qed.

(** The first occurrences come in the order of their positions. *)
Lemma first_occurrences_sorted (l : list string) :
  StronglySorted (λ a b, (first_index a l < first_index b l)%nat)
                 (first_occurrences l).
Proof.
  induction l as [|x l IH]; simpl; [constructor|].
  constructor.
  - eapply StronglySorted_weaken;
      [|exact (sublist_StronglySorted _ _ _ (sublist_bool_filter _ _) IH)].
    intros a b [_ Ha%negb_true_iff]%elem_of_bool_filter
               [_ Hb%negb_true_iff]%elem_of_bool_filter Hab.
    simpl. rewrite String.eqb_sym in Ha. rewrite String.eqb_sym in Hb.
    rewrite Ha, Hb. lia.
  - rewrite Forall_forall. intros b [_ Hb%negb_true_iff]%elem_of_bool_filter.
    rewrite String.eqb_refl. rewrite String.eqb_sym in Hb. rewrite Hb. lia.
Qed.

Lemma JsMap_get_tabulate (f : string → Z) (ks : list string) (x : string) :
  JsMap.get x (map (λ k, (k, f k)) ks) = if decide (x ∈ ks) then Some (f x) else None.
Proof.
  induction ks as [|k ks IH]; simpl; [done|].
  destruct (String.eqb_spec k x) as [->|Hne].
  - rewrite (decide_True (P := x ∈ x :: ks)); [done|].
    rewrite elem_of_cons. auto.
  - rewrite IH. destruct (decide (x ∈ ks)).
    + rewrite (decide_True (P := x ∈ k :: ks)); [done|].
      rewrite elem_of_cons. auto.
    + rewrite (decide_False (P := x ∈ k :: ks)); [done|].
      rewrite elem_of_cons. naive_solver.
Qed.

Lemma JsMap_set_fresh (f : string → Z) (ks : list string) (x : string) (v : Z) :
  x ∉ ks →
  JsMap.set x v (map (λ k, (k, f k)) ks) = map (λ k, (k, f k)) ks ++ [(x, v)].
Proof.
  induction ks as [|k ks IH]; simpl; [done|].
  rewrite not_elem_of_cons. intros [Hne Hnin].
  destruct (String.eqb_spec k x) as [->|_]; [done|]. by rewrite IH.
Qed.

Lemma JsMap_set_present (f g : string → Z) (ks : list string) (x : string) (v : Z) :
  x ∈ ks → NoDup ks →
  g x = v → (∀ k, k ≠ x → g k = f k) →
  JsMap.set x v (map (λ k, (k, f k)) ks) = map (λ k, (k, g k)) ks.
Proof.
  intros Hin Hnd Hgx Hg. induction Hnd as [|k ks Hk Hnd IH]; simpl.
  - by apply elem_of_nil in Hin.
  - destruct (String.eqb_spec k x) as [->|Hne].
    + rewrite Hgx. f_equal. apply map_ext_in. intros k Hk'.
      rewrite Hg; [done|]. intros ->. by apply Hk, list_elem_of_In.
    + rewrite Hg by done. f_equal. apply IH.
      apply elem_of_cons in Hin as [->|?]; done.
Qed.

(** After counting the lines of [p] one by one, the map holds the distinct
    lines of [p] in order of first occurrence, each with its number of
    occurrences. *)
Lemma countLine_tabulates (p : list string) :
  fold_left countLine p [] =
  map (λ k, (k, occurrences k p)) (first_occurrences p).
Proof.
  induction p as [|x p IH] using rev_ind; [done|].
  rewrite fold_left_app. simpl. rewrite IH. unfold countLine.
  rewrite JsMap_get_tabulate, first_occurrences_snoc.
  assert (Hor : or0 (if decide (x ∈ first_occurrences p)
                     then Some (occurrences x p) else None) = occurrences x p).
  { destruct (decide (x ∈ first_occurrences p)) as [Hin|Hnin]; simpl.
    - apply elem_of_first_occurrences, occurrences_pos in Hin.
      destruct (occurrences x p =? 0) eqn:E; [apply Z.eqb_eq in E; lia | done].
    - symmetry. apply occurrences_zero. by rewrite <- elem_of_first_occurrences. }
  rewrite Hor. destruct (decide (x ∈ p)) as [Hin|Hnin].
  - apply JsMap_set_present.
    + by apply elem_of_first_occurrences.
    + apply NoDup_first_occurrences.
    + rewrite occurrences_app. simpl. rewrite String.eqb_refl. lia.
    + intros k Hk. rewrite occurrences_app. simpl.
      apply not_eq_sym, String.eqb_neq in Hk. rewrite Hk. lia.
  - rewrite JsMap_set_fresh by (by rewrite elem_of_first_occurrences).
    rewrite map_app. simpl. f_equal.
    + apply map_ext_in. intros k Hk.
      apply list_elem_of_In in Hk. rewrite elem_of_first_occurrences in Hk.
      rewrite occurrences_app. simpl.
      destruct (String.eqb_spec x k) as [Heq|_]; [by subst|f_equal; lia].
    + rewrite occurrences_app. simpl. by rewrite String.eqb_refl.
Qed.

(** ** Line statistics *)

Lemma linesMap_fold (stops : list Stop) (acc : Tally) :
  linesMap (fold_left tallyStop stops acc) =
  fold_left countLine (flat_map linesOf stops) (linesMap acc).
Proof.
  revert acc. induction stops as [|s stops IH]; intros acc; simpl; [done|].
  rewrite IH, fold_left_app. f_equal.
  unfold tallyStop, linesOf. by destruct (stopsMeta !! stop_id s).
Qed.

Lemma linesMap_aggregate (fs : FilterState) :
  linesMap (aggregate fs) =
  map (λ k, (k, occurrences k (lineScan fs))) (first_occurrences (lineScan fs)).
Proof.
  unfold aggregate. rewrite linesMap_fold. simpl. apply countLine_tabulates.
Qed.

Lemma rankedLines_perm (fs : FilterState) :
  rankedLines fs ≡ₚ
  map (λ k, {| name := k; count := occurrences k (lineScan fs) |})
      (first_occurrences (lineScan fs)).
Proof.
  unfold rankedLines.
  rewrite (array_sort_perm snd), linesMap_aggregate, map_map. done.
Qed.

Lemma elem_of_rankedLines (fs : FilterState) (e : LineStat) :
  e ∈ rankedLines fs ↔
  name e ∈ lineScan fs ∧ count e = occurrences (name e) (lineScan fs).
Proof.
  rewrite rankedLines_perm, list_elem_of_In, in_map_iff. split.
  - intros (k & <- & Hk). simpl.
    apply list_elem_of_In in Hk. by rewrite elem_of_first_occurrences in Hk.
  - intros [Hin Hc]. exists (name e). split.
    + destruct e as [n c]; simpl in *. by subst.
    + apply list_elem_of_In. by rewrite elem_of_first_occurrences.
Qed.

Lemma rankedLines_names (fs : FilterState) :
  map name (rankedLines fs) ≡ₚ first_occurrences (lineScan fs).
Proof.
  rewrite rankedLines_perm, map_map. simpl. by rewrite map_id.
Qed.

Lemma rankedLines_length (fs : FilterState) :
  length (rankedLines fs) = length (first_occurrences (lineScan fs)).
Proof. by rewrite rankedLines_perm, length_map. Qed.

Lemma rankedLines_sorted (fs : FilterState) :
  StronglySorted (ranksBefore (lineScan fs)) (rankedLines fs).
Proof.
  unfold rankedLines. apply StronglySorted_map.
  eapply StronglySorted_weaken;
    [|apply (array_sort_ranked snd
               (λ a b, (first_index a.1 (lineScan fs) < first_index b.1 (lineScan fs))%nat))].
  - intros a b _ _. unfold ranks, ranksBefore. simpl. lia.
  - rewrite linesMap_aggregate. apply StronglySorted_map. simpl.
    apply first_occurrences_sorted.
Qed.

Lemma searchedLines_sublist (fs : FilterState) :
  searchedLines fs `sublist_of` rankedLines fs.
Proof.
  unfold searchedLines.
  destruct (negb _); [apply sublist_bool_filter | done].
Qed.

Lemma displayedLines_eq (fs : FilterState) :
  displayedLines (stats fs) =
  if showAllLines fs || negb (String.eqb (searchQuery fs) EmptyString)
  then searchedLines fs else slice0 6 (searchedLines fs).
Proof. done. Qed.

Lemma displayedLines_sublist (fs : FilterState) :
  displayedLines (stats fs) `sublist_of` rankedLines fs.
Proof.
  rewrite displayedLines_eq.
  destruct (_ || _); [apply searchedLines_sublist|].
  etrans; [apply sublist_take | apply searchedLines_sublist].
Qed.

(** C3: the displayed line statistics come from the scan of the
    type-filtered stops alone (the selection plays no part), hold one
    entry per line with its number of occurrences in that scan, are in
    decreasing order of count, and entries with equal counts are in the
    order in which their lines are first met in the scan. *)
Theorem lineStats_ranked (fs : FilterState) :
  (∀ sel, stats (with_selectedLines sel fs) = stats fs) ∧
  (∀ e, e ∈ rankedLines fs ↔
        name e ∈ lineScan fs ∧ count e = occurrences (name e) (lineScan fs)) ∧
  NoDup (map name (rankedLines fs)) ∧
  displayedLines (stats fs) `sublist_of` rankedLines fs ∧
  StronglySorted (λ a b, count b ≤ count a) (displayedLines (stats fs)) ∧
  StronglySorted (ranksBefore (lineScan fs)) (displayedLines (stats fs)).
Proof.
  split; [done|]. split; [apply elem_of_rankedLines|]. split.
  { rewrite rankedLines_names. apply NoDup_first_occurrences. }
  split; [apply displayedLines_sublist|].
  assert (Hs : StronglySorted (ranksBefore (lineScan fs)) (displayedLines (stats fs))).
  { eapply sublist_StronglySorted;
      [apply displayedLines_sublist | apply rankedLines_sorted]. }
  split; [|done].
  eapply StronglySorted_weaken; [|exact Hs].
  intros a b _ _. unfold ranksBefore. lia.
Qed.

(** ** Search and truncation *)

Lemma searchedLines_eq (fs : FilterState) :
  searchedLines fs =
  if Str.blank (searchQuery fs) then rankedLines fs
  else List.filter
         (λ l, Str.includes (toLowerCase engine (name l))
                            (toLowerCase engine (searchQuery fs)))
         (rankedLines fs).
Proof.
  unfold searchedLines. rewrite trim_blank.
  by destruct (Str.blank (searchQuery fs)).
Qed.

(** C4, as the code has it: a search text with a code point that is not
    white space, that is one whose [trim()] is not empty, keeps exactly
    the ranked lines whose lower-cased name contains the lower-cased text,
    as typed, and all of them are displayed; an empty or blank search text
    filters nothing. *)
Theorem search_filter (fs : FilterState) :
  String.eqb (Str.trim (searchQuery fs)) EmptyString
  = Str.blank (searchQuery fs) ∧
  (Str.blank (searchQuery fs) = false →
   displayedLines (stats fs) = searchedLines fs ∧
   ∀ e, e ∈ displayedLines (stats fs) ↔
        e ∈ rankedLines fs ∧
        ∃ pre post,
          toLowerCase engine (name e)
          = pre +:+ toLowerCase engine (searchQuery fs) +:+ post) ∧
  (Str.blank (searchQuery fs) = true → searchedLines fs = rankedLines fs).
Proof.
  split; [apply trim_blank|]. split; intros Hw.
  - assert (Hne : String.eqb (searchQuery fs) EmptyString = false).
    { destruct (searchQuery fs); [done|]. done. }
    rewrite displayedLines_eq, Hne, orb_true_r. simpl. split; [done|].
    intros e. rewrite searchedLines_eq, Hw, elem_of_bool_filter.
    by rewrite includes_spec.
  - by rewrite searchedLines_eq, Hw.
Qed.

Lemma slice0_length {A} (n : nat) (l : list A) :
  length (slice0 n l) = Nat.min n (length l).
Proof. apply length_take. Qed.

(** C5: without search text and with the list collapsed, the first six
    ranked lines are displayed; with the list expanded or any search text,
    everything that passed the search is displayed. With ten lines that
    makes six entries, ten entries, and at most ten entries. *)
Theorem displayedLines_cap (fs : FilterState) :
  (showAllLines fs = false → searchQuery fs = EmptyString →
   displayedLines (stats fs) = slice0 6 (rankedLines fs)) ∧
  (showAllLines fs = true ∨ searchQuery fs ≠ EmptyString →
   displayedLines (stats fs) = searchedLines fs) ∧
  (length (first_occurrences (lineScan fs)) = 10%nat →
   (showAllLines fs = false → searchQuery fs = EmptyString →
    length (displayedLines (stats fs)) = 6%nat) ∧
   (showAllLines fs = true → searchQuery fs = EmptyString →
    displayedLines (stats fs) = rankedLines fs ∧
    length (displayedLines (stats fs)) = 10%nat) ∧
   (searchQuery fs ≠ EmptyString →
    displayedLines (stats fs) = searchedLines fs ∧
    (length (displayedLines (stats fs)) ≤ 10)%nat)).
Proof.
  assert (H1 : showAllLines fs = false → searchQuery fs = EmptyString →
               displayedLines (stats fs) = slice0 6 (rankedLines fs)).
  { intros Ha Hq. rewrite displayedLines_eq, searchedLines_eq, Ha, Hq. done. }
  assert (H2 : showAllLines fs = true ∨ searchQuery fs ≠ EmptyString →
               displayedLines (stats fs) = searchedLines fs).
  { intros [Ha|Hq]; rewrite displayedLines_eq.
    - by rewrite Ha.
    - apply String.eqb_neq in Hq. by rewrite Hq, orb_true_r. }
  split; [done|]. split; [done|].
  intros Hten. rewrite <- rankedLines_length in Hten.
  split; [|split].
  - intros Ha Hq. rewrite H1, slice0_length, Hten by done. done.
  - intros Ha Hq. rewrite H2 by auto.
    rewrite searchedLines_eq, Hq. done.
  - intros Hq. rewrite H2 by auto. split; [done|].
    rewrite <- Hten. apply sublist_length, searchedLines_sublist.
Qed.

(** ** Evaluation on arrays *)

Lemma Runs_ret {A} (x : A) (m : Memory) (P : A → Memory → Prop) :
  P x m → Runs (ret x) m P.
Proof. intros H. by exists x, m. Qed.

Lemma Runs_bind {A B} (c : Eval A) (k : A → Eval B) (m : Memory)
    (P : B → Memory → Prop) :
  Runs c m (λ x m', Runs (k x) m' P) → Runs (bind c k) m P.
Proof.
  intros (x & m' & Hc & y & m'' & Hk & HP). exists y, m''.
  unfold bind. by rewrite Hc.
Qed.

Lemma Runs_mono {A} (c : Eval A) (m : Memory) (P Q : A → Memory → Prop) :
  Runs c m P → (∀ x m', P x m' → Q x m') → Runs c m Q.
Proof. intros (x & m' & Hc & HP) HPQ. exists x, m'. auto. Qed.

Lemma Runs_alloc (a : Arr) (m : Memory) (P : nat → Memory → Prop) :
  P (length (heap m)) (with_heap (heap m ++ [a]) m) → Runs (alloc a) m P.
Proof. intros H. by eexists _, _. Qed.

Lemma Runs_readStops (p : nat) (l : list Stop) (m : Memory)
    (P : list Stop → Memory → Prop) :
  stopsAt (heap m) p = Some l → P l m → Runs (readStops p) m P.
Proof.
  unfold stopsAt, readStops. intros H HP. exists l, m.
  destruct (heap m !! p) as [[]|]; by simplify_eq.
Qed.

Lemma Runs_readEntries (p : nat) (l : list (string * Z)) (m : Memory)
    (P : list (string * Z) → Memory → Prop) :
  heap m !! p = Some (EntriesArr l) → P l m → Runs (readEntries p) m P.
Proof. unfold readEntries. intros H HP. exists l, m. by rewrite H. Qed.

Lemma Runs_readLines (p : nat) (l : list LineStat) (m : Memory)
    (P : list LineStat → Memory → Prop) :
  heap m !! p = Some (LinesArr l) → P l m → Runs (readLines p) m P.
Proof. unfold readLines. intros H HP. exists l, m. by rewrite H. Qed.

Lemma Runs_sortInPlace cmp (p : nat) (l : list (string * Z)) (m : Memory)
    (P : unit → Memory → Prop) :
  heap m !! p = Some (EntriesArr l) →
  P tt (with_heap (<[p := EntriesArr (array_sort cmp l)]> (heap m)) m) →
  Runs (sortInPlace cmp p) m P.
Proof. unfold sortInPlace. intros H HP. eexists _, _. by rewrite H. Qed.

Lemma lookup_fresh (h : list Arr) (a : Arr) : (h ++ [a]) !! length h = Some a.
Proof. by rewrite lookup_app_r, Nat.sub_diag. Qed.

Lemma insert_fresh (h : list Arr) (a b : Arr) :
  <[length h := b]> (h ++ [a]) = h ++ [b].
Proof. by rewrite insert_app_r_alt, Nat.sub_diag. Qed.

Lemma stopsAt_prefix (h h' : list Arr) (p : nat) (l : list Stop) :
  h `prefix_of` h' → stopsAt h p = Some l → stopsAt h' p = Some l.
Proof.
  unfold stopsAt. intros Hp H.
  destruct (h !! p) as [a|] eqn:E; [|done].
  by rewrite (prefix_lookup_Some _ _ _ _ E Hp).
Qed.

Lemma statsAt_prefix (h h' : list Arr) (r : StatsRef) (st : Stats) :
  h `prefix_of` h' → statsAt h r = Some st → statsAt h' r = Some st.
Proof.
  unfold statsAt. intros Hp H.
  destruct (h !! ref_displayedLines r) as [a|] eqn:E; [|done].
  by rewrite (prefix_lookup_Some _ _ _ _ E Hp).
Qed.

(** Coherence looks at the heap only through arrays that are there. *)
Lemma Coherent_grow (fs : FilterState) (m : Memory) (h : list Arr) :
  heap m `prefix_of` h → Coherent fs m → Coherent fs (with_heap h m).
Proof.
  intros Hp (H0 & H1 & H2 & H3). unfold Coherent. simpl.
  split; [by eapply stopsAt_prefix|]. split; [|split].
  - intros p Hc. eapply stopsAt_prefix; [done|]. by apply H1.
  - intros p Hc. eapply stopsAt_prefix; [done|]. by apply H2.
  - intros r Hc. eapply statsAt_prefix; [done|]. by apply H3.
Qed.

Lemma with_heap_same (m : Memory) : with_heap (heap m) m = m.
Proof. by destruct m. Qed.

Lemma Runs_cachedByType (c : Eval nat) (m : Memory) (P : nat → Memory → Prop) :
  match cache_byType m with
  | Some p => P p m
  | None =>
      Runs c m (λ p m', P p {| heap := heap m'; cache_byType := Some p;
                                cache_visible := cache_visible m';
                                cache_stats := cache_stats m' |})
  end →
  Runs (cachedByType c) m P.
Proof.
  unfold cachedByType, Runs. destruct (cache_byType m) as [p|].
  - intros H. by exists p, m.
  - intros (p & m' & -> & H). by eexists _, _.
Qed.

Lemma Runs_cachedVisible (c : Eval nat) (m : Memory) (P : nat → Memory → Prop) :
  match cache_visible m with
  | Some p => P p m
  | None =>
      Runs c m (λ p m', P p {| heap := heap m'; cache_byType := cache_byType m';
                                cache_visible := Some p;
                                cache_stats := cache_stats m' |})
  end →
  Runs (cachedVisible c) m P.
Proof.
  unfold cachedVisible, Runs. destruct (cache_visible m) as [p|].
  - intros H. by exists p, m.
  - intros (p & m' & -> & H). by eexists _, _.
Qed.

Lemma Runs_cachedStats (c : Eval StatsRef) (m : Memory)
    (P : StatsRef → Memory → Prop) :
  match cache_stats m with
  | Some r => P r m
  | None =>
      Runs c m (λ r m', P r {| heap := heap m'; cache_byType := cache_byType m';
                                cache_visible := cache_visible m';
                                cache_stats := Some r |})
  end →
  Runs (cachedStats c) m P.
Proof.
  unfold cachedStats, Runs. destruct (cache_stats m) as [r|].
  - intros H. by exists r, m.
  - intros (r & m' & -> & H). by eexists _, _.
Qed.

(** Arrays that were there are still there, as they were. *)
Definition Kept (m m' : Memory) : Prop := heap m `prefix_of` heap m'.

Lemma Kept_refl (m : Memory) : Kept m m.
Proof. by unfold Kept. Qed.

Lemma Kept_alloc (m m1 : Memory) (a : Arr) :
  Kept m m1 → Kept m (with_heap (heap m1 ++ [a]) m1).
Proof.
  unfold Kept. simpl. intros H. etrans; [done|]. apply prefix_app_r. reflexivity.
Qed.

Lemma Coherent_alloc (fs : FilterState) (m : Memory) (a : Arr) :
  Coherent fs m → Coherent fs (with_heap (heap m ++ [a]) m).
Proof. apply Coherent_grow. apply prefix_app_r. reflexivity. Qed.

Lemma stopsFilteredByTypeV_runs (fs : FilterState) (m : Memory) :
  Coherent fs m →
  Runs (stopsFilteredByTypeV fs) m
       (λ p m', stopsAt (heap m') p = Some (stopsFilteredByType fs) ∧
                Kept m m' ∧ Coherent fs m' ∧
                cache_visible m' = cache_visible m ∧
                cache_stats m' = cache_stats m).
Proof.
  intros Hc. apply Runs_cachedByType.
  destruct (cache_byType m) as [p|] eqn:Hcache.
  - destruct Hc as (H0 & H1 & H2 & H3).
    split; [by apply H1|]. split; [apply Kept_refl|]. by repeat split.
  - apply Runs_bind. eapply Runs_readStops; [exact (proj1 Hc)|].
    apply Runs_alloc. simpl.
    assert (Hnew : stopsAt (heap m ++ [StopsArr (stopsFilteredByType fs)])
                           (length (heap m)) = Some (stopsFilteredByType fs)).
    { unfold stopsAt. by rewrite lookup_fresh. }
    split; [done|]. split; [apply (Kept_alloc m m), Kept_refl|]. split; [|done].
    destruct (Coherent_alloc fs m (StopsArr (stopsFilteredByType fs)) Hc)
      as (H0 & H1 & H2 & H3).
    unfold Coherent. simpl in *. split; [done|]. split; [|done].
    by intros ? [= <-].
Qed.

Lemma visibleStopsV_runs (fs : FilterState) (m : Memory) :
  Coherent fs m →
  Runs (visibleStopsV fs) m
       (λ p m', stopsAt (heap m') p = Some (visibleStops fs) ∧
                Kept m m' ∧ Coherent fs m' ∧
                cache_visible m' = Some p ∧
                cache_stats m' = cache_stats m).
Proof.
  intros Hc. apply Runs_cachedVisible.
  destruct (cache_visible m) as [p|] eqn:Hcache.
  - destruct Hc as (H0 & H1 & H2 & H3).
    split; [by apply H2|]. split; [apply Kept_refl|]. by repeat split.
  - assert (Hfin : ∀ p m', stopsAt (heap m') p = Some (visibleStops fs) →
                     Kept m m' → Coherent fs m' → cache_stats m' = cache_stats m →
                     (λ p m'', stopsAt (heap m'') p = Some (visibleStops fs) ∧
                        Kept m m'' ∧ Coherent fs m'' ∧
                        cache_visible m'' = Some p ∧
                        cache_stats m'' = cache_stats m)
                       p {| heap := heap m'; cache_byType := cache_byType m';
                            cache_visible := Some p;
                            cache_stats := cache_stats m' |}).
    { intros p m' Hp Hk (H0 & H1 & H2 & H3) Hs. simpl.
      split; [done|]. split; [done|]. split; [|done].
      unfold Coherent. simpl. split; [done|]. split; [done|]. split; [|done].
      by intros ? [= <-]. }
    destruct (negb (showStops fs)) eqn:Hshow.
    + apply Runs_alloc. apply Hfin; simpl.
      * unfold stopsAt, visibleStops. by rewrite lookup_fresh, Hshow.
      * apply (Kept_alloc m m), Kept_refl.
      * by apply Coherent_alloc.
      * done.
    + apply Runs_bind.
      eapply Runs_mono; [by apply stopsFilteredByTypeV_runs|].
      intros base m1 (Hbase & Hk & Hc1 & Hv & Hs). simpl.
      destruct (size (selectedLines fs) =? 0)%nat eqn:Hsel.
      * apply Runs_ret. apply Hfin; try done.
        unfold visibleStops. by rewrite Hshow, Hsel.
      * apply Runs_bind. eapply Runs_readStops; [done|].
        apply Runs_alloc. apply Hfin; simpl.
        -- unfold stopsAt, visibleStops. by rewrite lookup_fresh, Hshow, Hsel.
        -- by apply Kept_alloc.
        -- by apply Coherent_alloc.
        -- done.
Qed.

Lemma statsV_runs (fs : FilterState) (m : Memory) :
  Coherent fs m →
  Runs (statsV fs) m
       (λ r m', statsAt (heap m') r = Some (stats fs) ∧
                Kept m m' ∧ Coherent fs m' ∧
                cache_stats m' = Some r ∧
                cache_visible m' = cache_visible m).
Proof.
  intros Hc. apply Runs_cachedStats.
  destruct (cache_stats m) as [r|] eqn:Hcache.
  - destruct Hc as (H0 & H1 & H2 & H3).
    split; [by apply H3|]. split; [apply Kept_refl|]. by repeat split.
  - apply Runs_bind.
    eapply Runs_mono; [by apply stopsFilteredByTypeV_runs|].
    intros base m1 (Hbase & Hk & Hc1 & Hv & Hs). cbn -[slice0].
    apply Runs_bind. eapply Runs_readStops; [done|].
    fold (aggregate fs). apply Runs_bind, Runs_alloc.
    apply Runs_bind. eapply Runs_sortInPlace; [apply lookup_fresh|].
    cbn -[slice0]. rewrite insert_fresh.
    apply Runs_bind. eapply Runs_readEntries; [apply lookup_fresh|].
    fold (rankedLines fs). apply Runs_bind, Runs_alloc. cbn -[slice0].
    set (m2 := with_heap _ _).
    assert (Hk2 : Kept m m2).
    { subst m2. unfold Kept in *. cbn -[slice0]. etrans; [done|].
      rewrite <- app_assoc. apply prefix_app_r. reflexivity. }
    assert (Hc2 : Coherent fs m2).
    { subst m2. apply (Coherent_grow fs m1); [|done]. cbn -[slice0].
      rewrite <- app_assoc. apply prefix_app_r. reflexivity. }
    assert (Hmapped : ∃ p, heap m2 !! p = Some (LinesArr (rankedLines fs)) ∧
              p = length (heap m1 ++ [EntriesArr (array_sort byPopularity
                                                  (linesMap (aggregate fs)))])).
    { eexists. split; [|done]. subst m2. cbn -[slice0]. apply lookup_fresh. }
    destruct Hmapped as (mapped & Hmapped & <-).
    assert (Hcaches : cache_visible m2 = cache_visible m ∧ cache_stats m2 = None).
    { subst m2. cbn -[slice0]. by rewrite Hs. }
    destruct Hcaches as (Hv2 & Hs2).
    clearbody m2. clear Hbase Hk Hc1 Hv Hs m1.
    apply Runs_bind.
    apply (Runs_mono _ _
             (λ p m', heap m' !! p = Some (LinesArr (searchedLines fs)) ∧
                      Kept m m' ∧ Coherent fs m' ∧
                      cache_visible m' = cache_visible m ∧ cache_stats m' = None)).
    { unfold searchedLines. destruct (negb _).
      - apply Runs_bind. eapply Runs_readLines; [done|].
        apply Runs_alloc. cbn -[slice0]. rewrite lookup_fresh.
        split; [done|]. split; [by apply Kept_alloc|].
        split; [by apply Coherent_alloc|]. done.
      - apply Runs_ret. cbv beta. done. }
    intros sorted m3 (Hsorted & Hk3 & Hc3 & Hv3 & Hs3).
    apply Runs_bind. eapply Runs_readLines; [done|].
    apply Runs_bind.
    apply (Runs_mono _ _
             (λ p m', heap m' !! p = Some (LinesArr (displayedLines (stats fs))) ∧
                      Kept m m' ∧ Coherent fs m' ∧
                      cache_visible m' = cache_visible m ∧ cache_stats m' = None)).
    { rewrite displayedLines_eq. destruct (_ || _).
      - apply Runs_ret. cbv beta. done.
      - apply Runs_alloc. cbn -[slice0]. rewrite lookup_fresh.
        split; [done|]. split; [by apply Kept_alloc|].
        split; [by apply Coherent_alloc|]. done. }
    intros displayed m4 (Hdisp & Hk4 & (H0 & H1 & H2 & H3) & Hv4 & Hs4).
    apply Runs_ret. cbn -[slice0].
    assert (Hst : statsAt (heap m4)
                    {| ref_busCount := tally_bus (aggregate fs);
                       ref_tramCount := tally_tram (aggregate fs);
                       ref_displayedLines := displayed;
                       ref_totalLines := length (searchedLines fs) |}
                  = Some (stats fs)).
    { unfold statsAt. cbn -[slice0]. by rewrite Hdisp. }
    split; [done|]. split; [done|]. split; [|done].
    unfold Coherent. cbn -[slice0]. split; [done|]. split; [done|]. split; [done|].
    by intros ? [= <-].
Qed.

Lemma deriveViewV_runs (fs : FilterState) (m : Memory) :
  Coherent fs m →
  Runs (deriveViewV fs) m
       (λ v m', stopsAt (heap m') (ref_stops v) = Some (visibleStops fs) ∧
                statsAt (heap m') (ref_stats v) = Some (stats fs) ∧
                Kept m m' ∧ Coherent fs m' ∧
                cache_visible m' = Some (ref_stops v) ∧
                cache_stats m' = Some (ref_stats v)).
Proof.
  intros Hc. unfold deriveViewV. apply Runs_bind.
  eapply Runs_mono; [by apply visibleStopsV_runs|].
  intros p m1 (Hp & Hk1 & Hc1 & Hv1 & _). simpl.
  apply Runs_bind.
  eapply Runs_mono; [by apply statsV_runs|].
  intros r m2 (Hr & Hk2 & Hc2 & Hs2 & Hv2). simpl.
  apply Runs_ret. simpl.
  split; [by eapply stopsAt_prefix|]. split; [done|].
  split; [by unfold Kept in *; etrans|]. split; [done|].
  split; [by rewrite Hv2|done].
Qed.

Lemma deriveViewV_cached (fs : FilterState) (m : Memory) (v : ViewRef) :
  cache_visible m = Some (ref_stops v) → cache_stats m = Some (ref_stats v) →
  deriveViewV fs m = Some (v, m).
Proof.
  intros Hv Hs. unfold deriveViewV, bind, visibleStopsV, statsV,
    cachedVisible, cachedStats, ret.
  rewrite Hv, Hs. by destruct v.
Qed.

(** Invalidation forgets the cached values and keeps the arrays. *)
Lemma Coherent_invalidate (fs0 fs : FilterState) (m : Memory) :
  Coherent fs0 m → Coherent fs (invalidate m).
Proof.
  intros (H0 & _). unfold Coherent. simpl.
  split; [done|]. split; [done|]. by split.
Qed.

Lemma Coherent_initialMemory (fs : FilterState) : Coherent fs initialMemory.
Proof.
  unfold Coherent, initialMemory. simpl.
  split; [done|]. split; [done|]. by split.
Qed.

(** ** Handlers and redraws *)

Lemma issued_app (app : App) (new : list LeafletCall) (app' : App) :
  calls app' = calls app ++ new → issued app app' = new.
Proof. intros H. unfold issued. rewrite H. apply drop_app_length. Qed.

Lemma redraw_eq (app : App) (ms : list Marker) (ps : list Polyline) :
  markersLayer app = Some ms → shapesLayer app = Some ps →
  redraw app =
  {| filter_state := filter_state app;
     markersLayer := Some (markersOf (filter_state app));
     shapesLayer := Some (polylinesOf (filter_state app));
     calls := calls app
              ++ (ClearMarkers :: map AddMarker (markersOf (filter_state app)))
              ++ (ClearShapes :: map AddPolyline (polylinesOf (filter_state app))) |}.
Proof.
  intros Hm Hs. unfold redraw. rewrite drawShapes_eq, drawStops_eq, Hm. simpl.
  rewrite Hs. by rewrite <- app_assoc.
Qed.

Lemma drawStops_filter_state (app : App) :
  filter_state (drawStops app) = filter_state app.
Proof. rewrite drawStops_eq. by destruct (markersLayer app). Qed.

Lemma drawShapes_filter_state (app : App) :
  filter_state (drawShapes app) = filter_state app.
Proof. rewrite drawShapes_eq. by destruct (shapesLayer app). Qed.

(** C6, as the code has it: with both layers in place, the handlers of the
    mode toggles, of the line toggle and of the clearing of the selection
    rebuild both layers from the new filter state; the master switch
    rebuilds the marker layer only; the search box and the expansion link
    make no call to the map. In every case layers that showed the derived
    view before the action show the derived view of the new state. *)
Theorem handlers_redraw (a : Action) (app : App)
    (ms : list Marker) (ps : list Polyline) :
  markersLayer app = Some ms → shapesLayer app = Some ps →
  let app' := handle a app in
  let fs' := filter_state app' in
  match a with
  | ToggleType _ | ToggleLine _ | ClearLineSelection =>
      issued app app' =
        (ClearMarkers :: map AddMarker (markersOf fs'))
        ++ (ClearShapes :: map AddPolyline (polylinesOf fs')) ∧
      inSync app'
  | ToggleStopsMaster =>
      issued app app' = ClearMarkers :: map AddMarker (markersOf fs') ∧
      markersLayer app' = Some (markersOf fs') ∧
      shapesLayer app' = shapesLayer app
  | SetSearchQuery _ | ToggleShowAllLines =>
      issued app app' = [] ∧
      markersLayer app' = markersLayer app ∧
      shapesLayer app' = shapesLayer app
  end ∧
  (inSync app → inSync app').
Proof.
  intros Hm Hs app' fs'.
  assert (Hredraw : ∀ fs,
            let r := redraw (with_filter fs app) in
            issued app r =
              (ClearMarkers :: map AddMarker (markersOf (filter_state r)))
              ++ (ClearShapes :: map AddPolyline (polylinesOf (filter_state r))) ∧
            inSync r).
  { intros fs r. subst r.
    rewrite (redraw_eq (with_filter fs app) ms ps) by done. simpl. split.
    - by apply issued_app.
    - by split. }
  destruct a as [|type|lineName| |q|]; subst app' fs'; simpl.
  - unfold toggleStopsMaster. rewrite drawStops_eq. simpl. rewrite Hm. simpl.
    split.
    + split; [by apply issued_app|]. by split.
    + intros [_ Hp]. by split.
  - unfold toggleType. split; [apply Hredraw|]. intros _. apply Hredraw.
  - unfold toggleLine. split; [apply Hredraw|]. intros _. apply Hredraw.
  - unfold clearLineSelection. split; [apply Hredraw|]. intros _. apply Hredraw.
  - unfold setSearchQuery. simpl. split.
    + split; [|done]. apply issued_app. by rewrite app_nil_r.
    + intros [Hmk Hp]. by split.
  - unfold toggleShowAllLines. simpl. split.
    + split; [|done]. apply issued_app. by rewrite app_nil_r.
    + intros [Hmk Hp]. by split.
Qed.

(** C7: evaluating the derivation succeeds, and it returns the array of the
    visible stops and the statistics of the filter state with no array
    that was in memory changed; evaluating it again at once returns the
    very same arrays and touches nothing; evaluating it again from
    scratch, after the derivation has run on another filter state in
    between, returns arrays with the same contents as the first time, in
    the same order, and leaves the arrays returned the first time and the
    dataset as they were: the counters, the map and the array sorted in
    place are all made anew by each evaluation. The shapes are not kept in
    an array: [drawShapes] puts the same polylines, by the same calls, on
    the layer whatever the layer showed before. *)
Theorem deriveView_idempotent (fs other : FilterState) (m : Memory) :
  Coherent fs m →
  ∃ v m1,
    deriveViewV fs m = Some (v, m1) ∧
    stopsAt (heap m1) (ref_stops v) = Some (view_stops (deriveView fs)) ∧
    statsAt (heap m1) (ref_stats v) = Some (stats fs) ∧
    heap m `prefix_of` heap m1 ∧
    deriveViewV fs m1 = Some (v, m1) ∧
    (∃ w m2 v' m3,
       deriveViewV other (invalidate m1) = Some (w, m2) ∧
       deriveViewV fs (invalidate m2) = Some (v', m3) ∧
       stopsAt (heap m3) (ref_stops v') = Some (view_stops (deriveView fs)) ∧
       statsAt (heap m3) (ref_stats v') = Some (stats fs) ∧
       stopsAt (heap m3) (ref_stops v) = Some (view_stops (deriveView fs)) ∧
       statsAt (heap m3) (ref_stats v) = Some (stats fs) ∧
       stopsAt (heap m3) stopsAddr = Some stopsData) ∧
    (∀ app1 app2 ps1 ps2,
       filter_state app1 = fs → filter_state app2 = fs →
       shapesLayer app1 = Some ps1 → shapesLayer app2 = Some ps2 →
       shapesLayer (drawShapes app1)
       = Some (map polylineOf (view_shapes (deriveView fs))) ∧
       shapesLayer (drawShapes app2) = shapesLayer (drawShapes app1) ∧
       issued app2 (drawShapes app2) = issued app1 (drawShapes app1)).
Proof.
  intros Hc.
  destruct (deriveViewV_runs fs m Hc)
    as (v & m1 & Hrun & Hs & Hst & Hk & Hc1 & Hcv & Hcs).
  exists v, m1. split; [done|]. split; [done|]. split; [done|].
  split; [done|].
  split; [by apply deriveViewV_cached|]. split.
  - destruct (deriveViewV_runs other (invalidate m1)
                (Coherent_invalidate fs other m1 Hc1))
      as (w & m2 & Hrun2 & _ & _ & Hk2 & Hc2 & _).
    destruct (deriveViewV_runs fs (invalidate m2)
                (Coherent_invalidate other fs m2 Hc2))
      as (v' & m3 & Hrun3 & Hs3 & Hst3 & Hk3 & Hc3 & _).
    exists w, m2, v', m3.
    assert (Hk13 : heap m1 `prefix_of` heap m3).
    { unfold Kept in *. simpl in *. by etrans. }
    split; [done|]. split; [done|]. split; [done|]. split; [done|].
    split; [by eapply stopsAt_prefix|].
    split; [by eapply statsAt_prefix|].
    exact (proj1 Hc3).
  - intros app1 app2 ps1 ps2 Hf1 Hf2 Hl1 Hl2.
    rewrite !drawShapes_eq, Hl1, Hl2, Hf1, Hf2. simpl.
    split; [done|]. split; [done|].
    unfold issued. simpl. by rewrite !drop_app_length.
Qed.

(** ** Popups *)

Lemma append_assoc (a b c : string) : (a +:+ b) +:+ c = a +:+ (b +:+ c).
Proof.
  induction a as [|x a IH]; [done|].
  change (String x ((a +:+ b) +:+ c) = String x (a +:+ (b +:+ c))).
  by f_equal.
Qed.

Lemma append_empty_r (a : string) : a +:+ EmptyString = a.
Proof.
  induction a as [|x a IH]; [done|].
  change (String x (a +:+ EmptyString) = String x a). by f_equal.
Qed.

Lemma fold_badges (colors : gmap string string) (ls : list string) (acc : string) :
  fold_left (λ html line, html +:+ badge colors line) ls acc =
  acc +:+ foldr String.append EmptyString (map (badge colors) ls).
Proof.
  revert acc. induction ls as [|l ls IH]; intros acc; simpl.
  - by rewrite append_empty_r.
  - by rewrite IH, append_assoc.
Qed.

Lemma lineColors_fold (shapes : list Shape) (line : string) :
  fold_left (λ (colors : gmap string string) shape,
               <[route_name shape := color shape]> colors) shapes ∅
    !! line
  = color <$> last (List.filter (λ shape, String.eqb (route_name shape) line) shapes).
Proof.
  induction shapes as [|shape shapes IH] using rev_ind; [done|].
  rewrite fold_left_app, bool_filter_app. simpl.
  destruct (String.eqb_spec (route_name shape) line) as [<-|Hne].
  - by rewrite lookup_insert_eq, last_snoc.
  - by rewrite lookup_insert_ne, app_nil_r.
Qed.

(** The colour of a line is the colour of the last shape of that line. *)
Lemma lineColors_lookup (line : string) :
  lineColors !! line =
  color <$> last (List.filter (λ shape, String.eqb (route_name shape) line)
                              (Object_values shapesData)).
Proof. apply lineColors_fold. Qed.

(** C8: the popup of a stop is a function of the stop, its metadata and
    the colour table. It holds the name of the stop, one badge per line of
    the metadata in order (none without metadata), each with the colour of
    its line or the fallback colour when the table has none, the
    accessibility row that always reads Oui, and an image block exactly
    for the stops named Commerce and Vincent Gâche. The markers drawn carry
    this popup, with the colours of the shapes. *)
Theorem popupContent_parts (colors : gmap string string) (stop : Stop)
    (meta : option StopMeta) :
  (∃ head mid1 mid2 mid3 tail : string,
     (∀ colors' stop' meta',
        popupContent colors' stop' meta' =
        head +:+ stop_name stop' +:+ mid1 +:+ linesHtml colors' meta'
        +:+ mid2 +:+ handicapRow +:+ mid3 +:+ imageHtml stop' +:+ tail)) ∧
  linesHtml colors meta =
    foldr String.append EmptyString
      (map (badge colors) (match meta with Some m => lines m | None => [] end)) ∧
  (∀ line,
     badge colors line =
       "<span " +:+ Str.attr "class" "popup-line-badge" +:+ " "
       +:+ Str.attr "style" ("background-color: " +:+ colorOr colors line +:+ ";")
       +:+ ">" +:+ line +:+ "</span>" ∧
     (∀ c, colors !! line = Some c → c ≠ EmptyString → colorOr colors line = c) ∧
     (colors !! line = None ∨ colors !! line = Some EmptyString →
      colorOr colors line = fallbackColor)) ∧
  (∀ line,
     (∀ shape, shape ∈ Object_values shapesData → route_name shape ≠ line) →
     colorOr lineColors line = fallbackColor) ∧
  handicapRow =
    "<div " +:+ Str.attr "class" "popup-row"
    +:+ "><strong>Accès handicapé :</strong> Oui</div>" ∧
  (imageHtml stop ≠ EmptyString ↔
   stop_name stop = "Commerce" ∨ stop_name stop = "Vincent Gâche") ∧
  (stop_name stop = "Commerce" → imageHtml stop = commerceImage) ∧
  (stop_name stop = "Vincent Gâche" → imageHtml stop = vincentGacheImage) ∧
  (∀ fs, markersOf fs =
         map (λ s, {| marker_lat := stop_lat s; marker_lon := stop_lon s;
                      marker_icon := iconFor (stopsMeta !! stop_id s);
                      marker_popup :=
                        popupContent lineColors s (stopsMeta !! stop_id s) |})
             (visibleStops fs)).
Proof.
  split.
  { exists (Str.nl +:+ "      <div " +:+ Str.attr "class" "custom-popup" +:+ ">"
            +:+ Str.nl +:+ "        <div " +:+ Str.attr "class" "popup-header"
            +:+ ">Nom du station : <strong>"),
           ("</strong></div>" +:+ Str.nl
            +:+ "        <div " +:+ Str.attr "class" "popup-body" +:+ ">" +:+ Str.nl
            +:+ "          <div " +:+ Str.attr "class" "popup-row" +:+ ">" +:+ Str.nl
            +:+ "            <strong>Lignes :</strong>" +:+ Str.nl
            +:+ "            <div " +:+ Str.attr "class" "badges-container" +:+ ">"),
           ("</div>" +:+ Str.nl +:+ "          </div>" +:+ Str.nl +:+ "          "),
           (Str.nl +:+ "          "),
           (Str.nl +:+ "        </div>" +:+ Str.nl +:+ "      </div>" +:+ Str.nl
            +:+ "    ").
    intros colors' stop' meta'.
    cbv [popupContent Str.attr Str.nl Str.quote String.append]. reflexivity. }
  split.
  { unfold linesHtml. destruct meta as [m|]; [|done]. by rewrite fold_badges. }
  split.
  { intros line. split; [done|]. unfold colorOr. split.
    - intros c -> Hc. apply String.eqb_neq in Hc. by rewrite Hc.
    - by intros [->| ->]. }
  split.
  { intros line Hno. unfold colorOr. rewrite lineColors_lookup.
    assert (He : List.filter (λ shape, String.eqb (route_name shape) line)
                             (Object_values shapesData) = []).
    { induction (Object_values shapesData) as [|x l IH]; simpl; [done|].
      destruct (String.eqb_spec (route_name x) line) as [Heq|_].
      - exfalso. apply (Hno x); [by left | done].
      - apply IH. intros shape Hin. apply Hno. by right. }
    by rewrite He. }
  split; [done|].
  unfold imageHtml.
  destruct (String.eqb_spec (stop_name stop) "Vincent Gâche") as [Hv|Hv];
    destruct (String.eqb_spec (stop_name stop) "Commerce") as [Hc|Hc].
  - rewrite Hv in Hc. done.
  - split; [|split; [done|split; done]]. split; [auto | done].
  - split; [|split; [done|split; done]]. split; [auto | done].
  - split; [|split; [done|split; done]]. split; [done | by intros [?|?]].
Qed.

(** ** The sidebar and sequences of actions *)

(** Line 342: the clear button is there while a line is selected. *)
Definition clearShown (fs : FilterState) : bool :=
  (0 <? size (selectedLines fs))%nat.

(** Line 369: the link under the list. *)
Definition moreLinkShown (fs : FilterState) : bool :=
  String.eqb (searchQuery fs) EmptyString && (6 <? totalLines (stats fs))%nat.

(** Line 373: the number in the label of the collapsed list. *)
Definition moreLinkCount (fs : FilterState) : Z :=
  Z.of_nat (totalLines (stats fs)) - 6.

(** What the template lets the user trigger: a line is toggled by a click
    on one of the rows of lines 352-364, the selection is cleared with the
    button of line 342 and the list is expanded with the link of line 368;
    the two mode rows, the header and the search box are always there. *)
Definition offered (a : Action) (fs : FilterState) : bool :=
  match a with
  | ToggleLine lineName =>
      existsb (λ l, String.eqb (name l) lineName) (displayedLines (stats fs))
  | ClearLineSelection => clearShown fs
  | ToggleShowAllLines => moreLinkShown fs
  | ToggleStopsMaster | ToggleType _ | SetSearchQuery _ => true
  end.

(** The handlers of a sequence of actions, run one after the other. *)
Definition run (actions : list Action) (app : App) : App :=
  fold_left (λ a act, handle act a) actions app.

(** The states the user can get to from [start] through the sidebar. *)
Inductive Reachable (start : App) : App → Prop :=
| reach_start : Reachable start start
| reach_step (app : App) (a : Action) :
    Reachable start app → offered a (filter_state app) = true →
    Reachable start (handle a app).

(** What each handler does to the filter state. *)
Definition nextFilter (a : Action) (fs : FilterState) : FilterState :=
  filter_state
    (handle a {| filter_state := fs; markersLayer := None;
                 shapesLayer := None; calls := [] |}).

(** Every line that the metadata of some stop of the dataset names. *)
Definition knownLines : list string := flat_map linesOf stopsData.

(** Stops that count as bus, and as tram, in the statistics. *)
Definition countsAsBus (stop : Stop) : bool :=
  match stopsMeta !! stop_id stop with
  | Some m => negb (is_tram m)
  | None => false
  end.

Definition countsAsTram (stop : Stop) : bool :=
  match stopsMeta !! stop_id stop with
  | Some m => is_tram m
  | None => false
  end.

(** The handlers that flip something, as opposed to those that set it. *)
Definition isToggle (a : Action) : bool :=
  match a with
  | ToggleStopsMaster | ToggleType _ | ToggleLine _ | ToggleShowAllLines => true
  | ClearLineSelection | SetSearchQuery _ => false
  end.

(** Some character of [s] is the space U+0020. *)
Fixpoint hasSpace (s : string) : bool :=
  match s with
  | EmptyString => false
  | String c s' => Ascii.eqb c " " || hasSpace s'
  end.

(** Sum of a list of numbers. *)
Definition total (l : list Z) : Z := foldr Z.add 0 l.

(** ** Handlers, one after the other *)

Lemma redraw_filter_state (app : App) :
  filter_state (redraw app) = filter_state app.
Proof. unfold redraw. by rewrite drawShapes_filter_state, drawStops_filter_state. Qed.

Lemma nextFilter_eq (a : Action) (fs : FilterState) :
  nextFilter a fs =
  match a with
  | ToggleStopsMaster => with_showStops (negb (showStops fs)) fs
  | ToggleType bus => with_showBus (negb (showBus fs)) fs
  | ToggleType tram => with_showTram (negb (showTram fs)) fs
  | ToggleLine lineName =>
      with_selectedLines
        (if has (selectedLines fs) lineName
         then selectedLines fs ∖ {[lineName]}
         else selectedLines fs ∪ {[lineName]}) fs
  | ClearLineSelection => with_selectedLines ∅ fs
  | SetSearchQuery q => with_searchQuery q fs
  | ToggleShowAllLines => with_showAllLines (negb (showAllLines fs)) fs
  end.
Proof. by destruct a as [|[]| | | |]. Qed.

Lemma handle_filter_state (a : Action) (app : App) :
  filter_state (handle a app) = nextFilter a (filter_state app).
Proof.
  rewrite nextFilter_eq.
  destruct a as [|[]| | | |]; simpl;
    unfold toggleStopsMaster, toggleType, toggleLine, clearLineSelection;
    by rewrite ?redraw_filter_state, ?drawStops_filter_state.
Qed.

Lemma redraw_inSync (app : App) (ms : list Marker) (ps : list Polyline) :
  markersLayer app = Some ms → shapesLayer app = Some ps → inSync (redraw app).
Proof. intros Hm Hs. rewrite (redraw_eq app ms ps) by done. by split. Qed.

Lemma handle_inSync (a : Action) (app : App) :
  inSync app → inSync (handle a app).
Proof.
  intros [Hm Hs].
  destruct a as [|type|lineName| |q|]; simpl.
  - unfold toggleStopsMaster. rewrite drawStops_eq. simpl. rewrite Hm. by split.
  - unfold toggleType. by eapply redraw_inSync.
  - unfold toggleLine. by eapply redraw_inSync.
  - unfold clearLineSelection. by eapply redraw_inSync.
  - by split.
  - by split.
Qed.

Lemma run_snoc (actions : list Action) (a : Action) (app : App) :
  run (actions ++ [a]) app = handle a (run actions app).
Proof. unfold run. by rewrite fold_left_app. Qed.

Lemma onMounted_eq (app : App) :
  onMounted true app =
  {| filter_state := filter_state app;
     markersLayer := Some (markersOf (filter_state app));
     shapesLayer := Some (polylinesOf (filter_state app));
     calls := calls app
              ++ (ClearShapes :: map AddPolyline (polylinesOf (filter_state app)))
              ++ (ClearMarkers :: map AddMarker (markersOf (filter_state app))) |}.
Proof.
  unfold onMounted, initMap. simpl. rewrite drawStops_eq, drawShapes_eq. simpl.
  by rewrite <- app_assoc.
Qed.

(** X1: mounting with the container in place creates both layers and
    draws the polylines, then the markers, of the current filter state,
    whatever the layers held before; without the container nothing
    happens. *)
Theorem onMounted_draws (app : App) :
  onMounted false app = app ∧
  filter_state (onMounted true app) = filter_state app ∧
  inSync (onMounted true app) ∧
  issued app (onMounted true app) =
    (ClearShapes :: map AddPolyline (polylinesOf (filter_state app)))
    ++ (ClearMarkers :: map AddMarker (markersOf (filter_state app))).
Proof.
  split; [done|]. rewrite onMounted_eq. simpl.
  split; [done|]. split; [by split|]. by apply issued_app.
Qed.

(** X2: once mounted, whatever the user does and in whatever order, both
    layers show the derived view of the current filter state. *)
Theorem run_inSync (actions : list Action) (app : App) :
  inSync (run actions (onMounted true app)).
Proof.
  induction actions as [|a actions IH] using rev_ind.
  - rewrite onMounted_eq. by split.
  - rewrite run_snoc. by apply handle_inSync.
Qed.

(** X3: while the layers do not exist (the container was missing when
    mounting), the handlers change the filter state but make no call to
    the map, and no layer appears. *)
Theorem run_unmounted (actions : list Action) (app : App) :
  markersLayer app = None → shapesLayer app = None →
  markersLayer (run actions app) = None ∧
  shapesLayer (run actions app) = None ∧
  calls (run actions app) = calls app ∧
  filter_state (run actions app)
    = fold_left (λ fs a, nextFilter a fs) actions (filter_state app).
Proof.
  intros Hm Hs. induction actions as [|a actions IH] using rev_ind; [done|].
  rewrite run_snoc, fold_left_app. simpl.
  destruct IH as (IHm & IHs & IHc & IHf). rewrite <- IHf, <- IHc.
  rewrite <- handle_filter_state.
  destruct a as [|[]| | | |]; simpl;
    unfold toggleStopsMaster, toggleType, toggleLine, clearLineSelection,
           setSearchQuery, toggleShowAllLines, redraw;
    rewrite ?drawShapes_eq, ?drawStops_eq; simpl; rewrite ?IHm, ?IHs; simpl;
    rewrite ?IHm, ?IHs; done.
Qed.

(** X4: every handler changes its own field of the filter state and no
    other; toggling a line flips the membership of that line only, and
    clearing empties the selection. *)
Theorem handle_frame (a : Action) (app : App) :
  let fs := filter_state app in
  let fs' := filter_state (handle a app) in
  (showStops fs' = if a is ToggleStopsMaster then negb (showStops fs) else showStops fs) ∧
  (showBus fs' = if a is ToggleType bus then negb (showBus fs) else showBus fs) ∧
  (showTram fs' = if a is ToggleType tram then negb (showTram fs) else showTram fs) ∧
  (showAllLines fs' =
     if a is ToggleShowAllLines then negb (showAllLines fs) else showAllLines fs) ∧
  (searchQuery fs' = if a is SetSearchQuery q then q else searchQuery fs) ∧
  (∀ x, x ∈ selectedLines fs' ↔
        match a with
        | ToggleLine lineName =>
            (x ≠ lineName ∧ x ∈ selectedLines fs) ∨
            (x = lineName ∧ lineName ∉ selectedLines fs)
        | ClearLineSelection => False
        | _ => x ∈ selectedLines fs
        end).
Proof.
  intros fs fs'. subst fs'. rewrite handle_filter_state, nextFilter_eq. subst fs.
  destruct a as [|[]|lineName| | |]; simpl; repeat (split; [done|]); try done.
  intros x. destruct (has (selectedLines (filter_state app)) lineName) eqn:Hh.
  - apply has_true in Hh. rewrite elem_of_difference, elem_of_singleton.
    naive_solver.
  - assert (lineName ∉ selectedLines (filter_state app))
      by (rewrite <- has_true; congruence).
    rewrite elem_of_union, elem_of_singleton.
    destruct (decide (x = lineName)); naive_solver.
Qed.

Lemma FilterState_eq (fs1 fs2 : FilterState) :
  showStops fs1 = showStops fs2 → showBus fs1 = showBus fs2 →
  showTram fs1 = showTram fs2 → showAllLines fs1 = showAllLines fs2 →
  searchQuery fs1 = searchQuery fs2 → selectedLines fs1 = selectedLines fs2 →
  fs1 = fs2.
Proof. destruct fs1, fs2; simpl. by intros -> -> -> -> -> ->. Qed.

Lemma nextFilter_twice (a : Action) (fs : FilterState) :
  isToggle a = true →
  nextFilter a (nextFilter a fs) = fs.
Proof.
  intros Ha. rewrite !nextFilter_eq.
  destruct a as [|[]|lineName| | |]; try done;
    apply FilterState_eq; simpl; rewrite ?negb_involutive; try done.
  destruct (has (selectedLines fs) lineName) eqn:Hh.
  - apply has_true in Hh.
    assert (Hn : has (selectedLines fs ∖ {[lineName]}) lineName = false).
    { apply not_true_is_false. rewrite has_true. set_solver. }
    rewrite Hn. apply set_eq. intros x.
    rewrite elem_of_union, elem_of_difference, elem_of_singleton.
    destruct (decide (x = lineName)); naive_solver.
  - assert (lineName ∉ selectedLines fs) by (rewrite <- has_true; congruence).
    assert (Hn : has (selectedLines fs ∪ {[lineName]}) lineName = true).
    { rewrite has_true. set_solver. }
    rewrite Hn. apply set_eq. intros x.
    rewrite elem_of_difference, elem_of_union, elem_of_singleton.
    destruct (decide (x = lineName)); naive_solver.
Qed.

(** X5: the four toggles undo themselves: the same toggle twice in a row
    gives back the filter state, and layers that showed the derived view
    hold again what they held. *)
Theorem toggle_twice (a : Action) (app : App) :
  isToggle a = true →
  filter_state (handle a (handle a app)) = filter_state app ∧
  (inSync app →
   markersLayer (handle a (handle a app)) = markersLayer app ∧
   shapesLayer (handle a (handle a app)) = shapesLayer app).
Proof.
  intros Ha.
  assert (Hfs : filter_state (handle a (handle a app)) = filter_state app).
  { rewrite !handle_filter_state. by apply nextFilter_twice. }
  split; [done|]. intros Hsync.
  destruct (handle_inSync a _ (handle_inSync a _ Hsync)) as [Hm Hs].
  destruct Hsync as [Hm0 Hs0]. by rewrite Hm, Hs, Hfs, Hm0, Hs0.
Qed.

(** ** Order and growth of the visible stops *)

Lemma bool_filter_sublist_impl {A} (f g : A → bool) (l : list A) :
  (∀ x, f x = true → g x = true) →
  List.filter f l `sublist_of` List.filter g l.
Proof.
  intros Hfg. induction l as [|x l IH]; simpl; [done|].
  destruct (f x) eqn:Hf.
  - rewrite (Hfg x Hf). by constructor.
  - destruct (g x); [by constructor | done].
Qed.

Lemma visibleStops_sublist_base (fs : FilterState) :
  visibleStops fs `sublist_of` stopsFilteredByType fs.
Proof.
  unfold visibleStops. destruct (negb _); [apply sublist_nil_l|].
  destruct (_ =? _)%nat; [done | apply sublist_bool_filter].
Qed.

(** X6: filtering never reorders or repeats: the visible stops are the
    stops of the dataset in dataset order with some left out, and after
    [drawStops] the layer holds one marker per visible stop, in that
    order, at the coordinates of the stop and with the glyph of its mode. *)
Theorem visibleStops_in_order (fs : FilterState) :
  visibleStops fs `sublist_of` stopsFilteredByType fs ∧
  stopsFilteredByType fs `sublist_of` stopsData ∧
  (∀ app old, filter_state app = fs → markersLayer app = Some old →
     ∃ ms, markersLayer (drawStops app) = Some ms ∧
           length ms = length (visibleStops fs) ∧
           ∀ i stop, visibleStops fs !! i = Some stop →
             ∃ m, ms !! i = Some m ∧
                  marker_lat m = stop_lat stop ∧ marker_lon m = stop_lon stop ∧
                  iconSvg (marker_icon m)
                    = if isTramStop stop then tramSVG else busSVG).
Proof.
  split; [apply visibleStops_sublist_base|].
  split; [apply sublist_bool_filter|].
  intros app old <- Hm. exists (markersOf (filter_state app)).
  rewrite drawStops_eq, Hm. split; [done|]. unfold markersOf.
  split; [by rewrite length_map|].
  intros i stop Hi. eexists. split.
  - rewrite list_lookup_fmap, Hi. done.
  - simpl. unfold isTramStop. by destruct (stopsMeta !! stop_id stop).
Qed.

(** X7: a larger selection shows more: if every selected line of a
    non-empty selection is also in a second selection, the stops visible
    with the first are among those visible with the second, and both are
    among those visible with no selection at all. *)
Theorem visibleStops_selection_mono (fs : FilterState) (sel1 sel2 : gset string) :
  sel1 ≠ ∅ → sel1 ⊆ sel2 →
  visibleStops (with_selectedLines sel1 fs)
    `sublist_of` visibleStops (with_selectedLines sel2 fs) ∧
  visibleStops (with_selectedLines sel2 fs)
    `sublist_of` visibleStops (with_selectedLines ∅ fs).
Proof.
  intros Hne Hsub.
  assert (Hne2 : sel2 ≠ ∅) by set_solver.
  assert (Hsz : ∀ sel : gset string, sel ≠ ∅ → (size sel =? 0)%nat = false).
  { intros sel Hs. apply not_true_is_false. by rewrite size_zero_empty. }
  unfold visibleStops. simpl. destruct (negb (showStops fs)); [done|].
  rewrite (Hsz sel1 Hne), (Hsz sel2 Hne2). split.
  - apply bool_filter_sublist_impl. intros s. unfold onSelectedLine. simpl.
    destruct (stopsMeta !! stop_id s) as [m|]; [|done].
    rewrite !existsb_exists. intros (l & Hl & Hh). exists l. split; [done|].
    apply has_true. apply has_true in Hh. set_solver.
  - apply sublist_bool_filter.
Qed.

(** X8: a selection made only of lines that no stop of the dataset is on
    hides every stop. *)
Theorem visibleStops_unknown_lines (fs : FilterState) :
  selectedLines fs ≠ ∅ →
  (∀ l, l ∈ selectedLines fs → l ∉ knownLines) →
  visibleStops fs = [].
Proof.
  intros Hne Hun.
  destruct (visibleStops fs) as [|s rest] eqn:Hv; [done|]. exfalso.
  assert (Hs : s ∈ visibleStops fs) by (rewrite Hv; left).
  apply elem_of_visibleStops in Hs as (Hin & _ & _ & [He|(m & l & Hm & Hl & Hsel)]);
    [done|].
  apply (Hun l Hsel). unfold knownLines.
  apply list_elem_of_In, in_flat_map. exists s.
  split; [by apply list_elem_of_In|]. unfold linesOf. rewrite Hm.
  by apply list_elem_of_In.
Qed.

Lemma filter_partition {A} (f : A → bool) (l : list A) :
  List.filter f l ++ List.filter (λ x, negb (f x)) l ≡ₚ l.
Proof.
  induction l as [|x l IH]; simpl; [done|].
  destruct (f x); simpl.
  - by rewrite IH.
  - by rewrite <- Permutation_middle, IH.
Qed.

(** X9: with no selection, the bus-only and the tram-only views split the
    dataset: every stop is in exactly one of them, and with both modes on
    all stops are visible in dataset order. *)
Theorem visibleStops_modes_partition (fs : FilterState) :
  showStops fs = true → selectedLines fs = ∅ →
  visibleStops (with_showBus false (with_showTram true fs))
    ++ visibleStops (with_showBus true (with_showTram false fs)) ≡ₚ stopsData ∧
  visibleStops (with_showBus true (with_showTram true fs)) = stopsData ∧
  visibleStops (with_showBus false (with_showTram false fs)) = [].
Proof.
  intros Hs Hsel. unfold visibleStops, stopsFilteredByType. simpl.
  rewrite Hs, Hsel, size_empty. simpl. split; [|split].
  - assert (H1 : List.filter (keptByType (with_showBus false (with_showTram true fs)))
                             stopsData
                 = List.filter isTramStop stopsData).
    { apply filter_ext. intros s. unfold keptByType, isTramStop. simpl.
      by destruct (stopsMeta !! stop_id s) as [[[] ? ?]|]. }
    assert (H2 : List.filter (keptByType (with_showBus true (with_showTram false fs)))
                             stopsData
                 = List.filter (λ s, negb (isTramStop s)) stopsData).
    { apply filter_ext. intros s. unfold keptByType, isTramStop. simpl.
      by destruct (stopsMeta !! stop_id s) as [[[] ? ?]|]. }
    rewrite H1, H2. apply filter_partition.
  - apply filter_all_true. intros s. unfold keptByType. simpl.
    by destruct (stopsMeta !! stop_id s) as [[[] ? ?]|].
  - induction stopsData as [|s l IH]; simpl; [done|].
    unfold keptByType at 1. simpl.
    by destruct (stopsMeta !! stop_id s) as [[[] ? ?]|].
Qed.

(** ** Counts *)

Lemma tally_counts (stops : list Stop) (acc : Tally) :
  tally_bus (fold_left tallyStop stops acc)
    = tally_bus acc + Z.of_nat (length (List.filter countsAsBus stops)) ∧
  tally_tram (fold_left tallyStop stops acc)
    = tally_tram acc + Z.of_nat (length (List.filter countsAsTram stops)).
Proof.
  revert acc. induction stops as [|s stops IH]; intros acc; simpl; [lia|].
  destruct (IH (tallyStop acc s)) as [-> ->].
  unfold tallyStop, countsAsBus, countsAsTram.
  destruct (stopsMeta !! stop_id s) as [[[] ? ?]|]; simpl; lia.
Qed.

Lemma bool_filter_filter {A} (f g : A → bool) (l : list A) :
  List.filter f (List.filter g l) = List.filter (λ x, f x && g x) l.
Proof.
  induction l as [|x l IH]; simpl; [done|].
  destruct (g x); simpl; rewrite ?andb_true_r, ?andb_false_r;
    [destruct (f x)|]; by rewrite IH.
Qed.

Lemma bool_filter_flag {A} (f : A → bool) (b : bool) (l : list A) :
  List.filter (λ x, f x && b) l = if b then List.filter f l else [].
Proof.
  induction l as [|x l IH]; simpl; [by destruct b|].
  destruct b; rewrite ?andb_true_r, ?andb_false_r; [|done].
  destruct (f x); [f_equal|]; by rewrite <- IH;
    apply filter_ext; intros y; rewrite andb_true_r.
Qed.

Lemma counted_kept (fs : FilterState) (l : list Stop) :
  List.filter countsAsBus (List.filter (keptByType fs) l)
    = (if showBus fs then List.filter countsAsBus l else []) ∧
  List.filter countsAsTram (List.filter (keptByType fs) l)
    = (if showTram fs then List.filter countsAsTram l else []).
Proof.
  rewrite !bool_filter_filter, <- !bool_filter_flag.
  split; apply filter_ext; intros s; unfold keptByType, countsAsBus, countsAsTram;
    destruct (stopsMeta !! stop_id s) as [[[] ? ?]|];
    by destruct (showBus fs), (showTram fs).
Qed.

(** X10: the number beside the bus row is the number of stops of the
    dataset whose metadata says bus while the bus mode is on, and zero
    while it is off; likewise for tram. Stops without metadata are in
    neither number, and the master switch changes nothing here. *)
Theorem stats_counts (fs : FilterState) :
  busCount (stats fs)
    = (if showBus fs
       then Z.of_nat (length (List.filter countsAsBus stopsData)) else 0) ∧
  tramCount (stats fs)
    = (if showTram fs
       then Z.of_nat (length (List.filter countsAsTram stopsData)) else 0) ∧
  (∀ b, stats (with_showStops b fs) = stats fs).
Proof.
  split; [|split; [|done]]; unfold stats, aggregate; simpl.
  - rewrite (proj1 (tally_counts _ _)). simpl.
    unfold stopsFilteredByType. rewrite (proj1 (counted_kept fs stopsData)).
    by destruct (showBus fs).
  - rewrite (proj2 (tally_counts _ _)). simpl.
    unfold stopsFilteredByType. rewrite (proj2 (counted_kept fs stopsData)).
    by destruct (showTram fs).
Qed.

Lemma filter_split_length {A} (f g : A → bool) (l : list A) :
  (∀ x, x ∈ l → xorb (f x) (g x) = true) →
  (length (List.filter f l) + length (List.filter g l))%nat = length l.
Proof.
  induction l as [|x l IH]; intros H; simpl; [done|].
  assert (Hx := H x (list_elem_of_here _ _)).
  assert (IH' := IH (λ y Hy, H y (list_elem_of_further _ _ _ Hy))).
  destruct (f x), (g x); simpl in *; try done; lia.
Qed.

(** X11: when every stop has metadata, the stops are shown and no line is
    selected, the number of markers is the sum of the two numbers of the
    sidebar. *)
Theorem markers_match_counts (fs : FilterState) :
  (∀ s, s ∈ stopsData → is_Some (stopsMeta !! stop_id s)) →
  showStops fs = true → selectedLines fs = ∅ →
  Z.of_nat (length (markersOf fs)) = busCount (stats fs) + tramCount (stats fs).
Proof.
  intros Hmeta Hs Hsel. unfold markersOf. rewrite length_map.
  unfold visibleStops. rewrite Hs, Hsel, size_empty. simpl.
  unfold stats, aggregate. simpl.
  rewrite (proj1 (tally_counts _ _)), (proj2 (tally_counts _ _)). simpl.
  assert (H : (length (List.filter countsAsBus (stopsFilteredByType fs))
               + length (List.filter countsAsTram (stopsFilteredByType fs)))%nat
              = length (stopsFilteredByType fs)).
  { apply filter_split_length. intros s Hin.
    apply elem_of_stopsFilteredByType in Hin as [Hin _].
    destruct (Hmeta s Hin) as [m Hm]. unfold countsAsBus, countsAsTram.
    rewrite Hm. by destruct (is_tram m). }
  lia.
Qed.

(** ** Totals and uniqueness of the ranking *)

Lemma total_perm (l1 l2 : list Z) : l1 ≡ₚ l2 → total l1 = total l2.
Proof.
  unfold total. induction 1; simpl; lia.
Qed.

Lemma total_indicator (x : string) (ks : list string) :
  NoDup ks → x ∈ ks →
  total (map (λ k, if String.eqb x k then 1 else 0) ks) = 1.
Proof.
  unfold total. induction 1 as [|k ks Hk Hnd IH]; simpl.
  - by intros ?%elem_of_nil.
  - intros Hin. destruct (String.eqb_spec x k) as [->|Hne].
    + assert (foldr Z.add 0 (map (λ k0, if String.eqb k k0 then 1 else 0) ks) = 0)
        as ->; [|lia].
      clear IH Hnd Hin. induction ks as [|k' ks IH]; simpl; [done|].
      destruct (String.eqb_spec k k') as [->|_].
      * exfalso. apply Hk. left.
      * rewrite IH; [done|]. intros ?. apply Hk. by right.
    + apply elem_of_cons in Hin as [?|Hin]; [done|]. rewrite IH by done. lia.
Qed.

Lemma total_occurrences (ks l : list string) :
  NoDup ks → (∀ x, x ∈ l → x ∈ ks) →
  total (map (λ k, occurrences k l) ks) = Z.of_nat (length l).
Proof.
  intros Hnd. induction l as [|x l IH]; intros Hin; simpl.
  - clear Hnd Hin. unfold total. induction ks as [|k ks IHk]; simpl; [done|].
    by rewrite IHk.
  - assert (Hsplit : ∀ ks', total (map (λ k, (if String.eqb x k then 1 else 0)
                                             + occurrences k l) ks')
                     = total (map (λ k, if String.eqb x k then 1 else 0) ks')
                       + total (map (λ k, occurrences k l) ks')).
    { unfold total. induction ks' as [|k ks' IHk]; simpl; lia. }
    rewrite Hsplit, total_indicator, IH; [lia| |done|].
    + intros y Hy. apply Hin. by right.
    + apply Hin. left.
Qed.

(** X12: every line occurrence met in the scan is counted in exactly one
    entry: the counts of the ranked lines add up to the length of the
    scan. *)
Theorem rankedLines_total (fs : FilterState) :
  total (map count (rankedLines fs)) = Z.of_nat (length (lineScan fs)).
Proof.
  rewrite (total_perm _ _ (Permutation_map count (rankedLines_perm fs))).
  rewrite map_map. simpl.
  apply total_occurrences; [apply NoDup_first_occurrences|].
  intros x. by rewrite elem_of_first_occurrences.
Qed.

(** X13: the ranking does not depend on how the engine sorts: any
    arrangement of the same entries in which larger counts come first and
    equal counts keep the order of first occurrence is the ranked list. *)
Theorem rankedLines_unique (fs : FilterState) (l : list LineStat) :
  l ≡ₚ rankedLines fs →
  StronglySorted (ranksBefore (lineScan fs)) l →
  l = rankedLines fs.
Proof.
  intros Hp Hs.
  apply (StronglySorted_unique_strong (ranksBefore (lineScan fs)));
    [|done|apply rankedLines_sorted|done].
  intros a b _ _ Hab Hba. exfalso. unfold ranksBefore in *. lia.
Qed.

Lemma JsMap_get_set (m : JsMap.t) (k k' : string) (v : Z) :
  JsMap.get k' (JsMap.set k v m) = if String.eqb k k' then Some v else JsMap.get k' m.
Proof.
  induction m as [|[k0 v0] m IH]; simpl.
  - done.
  - destruct (String.eqb_spec k0 k) as [->|Hne]; simpl.
    + by destruct (String.eqb k k').
    + rewrite IH. destruct (String.eqb_spec k k') as [<-|_]; [|done].
      apply String.eqb_neq in Hne. by rewrite Hne.
Qed.

Lemma JsMap_set_absent (m : JsMap.t) (k : string) (v : Z) :
  JsMap.get k m = None → JsMap.set k v m = m ++ [(k, v)].
Proof.
  induction m as [|[k0 v0] m IH]; simpl; [done|].
  destruct (String.eqb k0 k); [done|]. intros H. by rewrite IH.
Qed.

Lemma JsMap_set_keys (m : JsMap.t) (k : string) (v : Z) :
  is_Some (JsMap.get k m) → JsMap.keys (JsMap.set k v m) = JsMap.keys m.
Proof.
  unfold JsMap.keys. induction m as [|[k0 v0] m IH]; simpl.
  - by intros [? ?].
  - destruct (String.eqb k0 k); simpl; [done|]. intros H. by rewrite IH.
Qed.

(** X14: counting a line adds one to its entry, creates the entry with
    count one at the end of the map if there was none, and leaves the
    other entries and the order of the keys alone. *)
Theorem countLine_get (m : JsMap.t) (line : string) :
  JsMap.get line (countLine m line) = Some (or0 (JsMap.get line m) + 1) ∧
  (∀ k, k ≠ line → JsMap.get k (countLine m line) = JsMap.get k m) ∧
  (JsMap.get line m = None → countLine m line = m ++ [(line, 1)]) ∧
  (is_Some (JsMap.get line m) → JsMap.keys (countLine m line) = JsMap.keys m).
Proof.
  unfold countLine. split; [|split; [|split]].
  - by rewrite JsMap_get_set, String.eqb_refl.
  - intros k Hk. rewrite JsMap_get_set.
    apply not_eq_sym, String.eqb_neq in Hk. by rewrite Hk.
  - intros Hnone. rewrite JsMap_set_absent by done. by rewrite Hnone.
  - apply JsMap_set_keys.
Qed.

(** ** More on the search box *)

Lemma hasSpace_app (a b : string) : hasSpace (a +:+ b) = hasSpace a || hasSpace b.
Proof.
  induction a as [|c a IH]; [done|].
  change (hasSpace (String c (a +:+ b)) = hasSpace (String c a) || hasSpace b).
  simpl. by rewrite IH, orb_assoc.
Qed.

Lemma blank_not_empty (q : string) :
  Str.blank q = false → String.eqb q EmptyString = false.
Proof. by destruct q. Qed.

(** X15: the search does not look at the case of what is typed: two
    search texts that are not blank and have the same lower-case form give
    the same sidebar. *)
Theorem search_ignores_case (fs : FilterState) (q1 q2 : string) :
  Str.blank q1 = false → Str.blank q2 = false →
  toLowerCase engine q1 = toLowerCase engine q2 →
  stats (with_searchQuery q1 fs) = stats (with_searchQuery q2 fs).
Proof.
  intros Hb1 Hb2 Hq.
  assert (Hs : searchedLines (with_searchQuery q1 fs)
               = searchedLines (with_searchQuery q2 fs)).
  { rewrite !searchedLines_eq. simpl. by rewrite Hb1, Hb2, Hq. }
  unfold stats. rewrite Hs. simpl.
  by rewrite (blank_not_empty q1 Hb1), (blank_not_empty q2 Hb2).
Qed.

Lemma hasSpace_asciiLower (s : string) :
  hasSpace (Str.asciiLower s) = hasSpace s.
Proof.
  induction s as [|c s IH]; [done|]. simpl. rewrite IH. f_equal.
  by destruct c as [[] [] [] [] [] [] [] []].
Qed.

(** X16: the search text is matched as typed, spaces included. Given
    that lower-casing neither adds nor removes spaces, when the text has a
    space next to other characters and no line of the scan has a space in
    its name, no line is displayed. *)
Theorem search_keeps_blanks (fs : FilterState) :
  (∀ s, hasSpace (toLowerCase engine s) = hasSpace s) →
  hasSpace (searchQuery fs) = true →
  Str.blank (searchQuery fs) = false →
  (∀ l, l ∈ lineScan fs → hasSpace l = false) →
  displayedLines (stats fs) = [] ∧ totalLines (stats fs) = 0%nat.
Proof.
  intros Hlower Hhas Hnw Hlines.
  assert (Hs : searchedLines fs = []).
  { rewrite searchedLines_eq, Hnw.
    destruct (List.filter _ (rankedLines fs)) as [|e rest] eqn:Hf; [done|].
    exfalso.
    assert (He : e ∈ List.filter
                       (λ l, Str.includes (toLowerCase engine (name l))
                                          (toLowerCase engine (searchQuery fs)))
                       (rankedLines fs)) by (rewrite Hf; left).
    apply elem_of_bool_filter in He as [Hr Hinc].
    apply elem_of_rankedLines in Hr as [Hscan _].
    apply includes_spec in Hinc as (pre & post & Heq).
    assert (Hw : hasSpace (toLowerCase engine (name e)) = true).
    { rewrite Heq, !hasSpace_app, Hlower, Hhas. by rewrite orb_true_r. }
    rewrite Hlower, (Hlines _ Hscan) in Hw. done. }
  unfold stats. rewrite Hs. simpl. split; [|done].
  by destruct (_ || _).
Qed.

(** X17: with an empty search text nothing is hidden without a way to get
    to it: if the link under the list is not there the whole ranking is
    displayed, and if it is there and the list is collapsed, six lines are
    displayed and the number in its label is the number of hidden lines. *)
Theorem moreLink_counts_hidden (fs : FilterState) :
  searchQuery fs = EmptyString →
  (moreLinkShown fs = false → displayedLines (stats fs) = rankedLines fs) ∧
  (moreLinkShown fs = true → showAllLines fs = true →
   displayedLines (stats fs) = rankedLines fs) ∧
  (moreLinkShown fs = true → showAllLines fs = false →
   length (displayedLines (stats fs)) = 6%nat ∧
   0 < moreLinkCount fs ∧
   moreLinkCount fs
     = Z.of_nat (length (rankedLines fs)) - Z.of_nat (length (displayedLines (stats fs)))).
Proof.
  intros Hq.
  assert (Hs : searchedLines fs = rankedLines fs)
    by (by rewrite searchedLines_eq, Hq).
  unfold moreLinkShown, moreLinkCount.
  assert (Ht : totalLines (stats fs) = length (rankedLines fs))
    by (unfold stats; simpl; by rewrite Hs).
  rewrite Ht, displayedLines_eq, Hs, Hq.
  change (String.eqb EmptyString EmptyString) with true.
  cbn [negb andb]. rewrite orb_false_r.
  split; [|split].
  - intros Hlt%Nat.ltb_ge. destruct (showAllLines fs); [done|].
    unfold slice0. by apply firstn_all2.
  - by intros _ ->.
  - intros Hlt%Nat.ltb_lt ->. rewrite slice0_length. lia.
Qed.

(** ** What the sidebar can select *)

Lemma lineScan_known (fs : FilterState) (l : string) :
  l ∈ lineScan fs → l ∈ knownLines.
Proof.
  unfold lineScan, knownLines. rewrite !list_elem_of_In, !in_flat_map.
  intros (s & Hs & Hl). exists s. split; [|done].
  apply list_elem_of_In. apply list_elem_of_In in Hs.
  by apply elem_of_stopsFilteredByType in Hs as [? _].
Qed.

(** X18: through the sidebar only lines of the dataset get selected: if
    that holds at the start it holds in every state the user can get to,
    since a line is toggled by a click on a displayed row. *)
Theorem selection_known (start app : App) :
  (∀ l, l ∈ selectedLines (filter_state start) → l ∈ knownLines) →
  Reachable start app →
  ∀ l, l ∈ selectedLines (filter_state app) → l ∈ knownLines.
Proof.
  intros Hstart Hreach. induction Hreach as [|app a Hreach IH Hoff]; [done|].
  intros l. rewrite handle_filter_state, nextFilter_eq.
  destruct a as [|[]|lineName| | |]; simpl; try apply IH.
  - simpl in Hoff. apply existsb_exists in Hoff as (e & He & Hname).
    apply String.eqb_eq in Hname. subst lineName.
    apply list_elem_of_In in He.
    assert (Hr : e ∈ rankedLines (filter_state app))
      by (eapply elem_of_sublist; [done | apply displayedLines_sublist]).
    apply elem_of_rankedLines in Hr as [Hscan _].
    destruct (has _ _).
    + rewrite elem_of_difference. intros [? _]. by apply IH.
    + rewrite elem_of_union, elem_of_singleton. intros [?| ->]; [by apply IH|].
      by eapply lineScan_known.
  - by intros ?%not_elem_of_empty.
Qed.

(** ** Colours *)

(** X19: the colour table gives a line the colour of its last shape in
    the order of the dataset, and has no entry for a line without shape. *)
Theorem lineColors_last_wins (line : string) :
  ((∀ shape, shape ∈ Object_values shapesData → route_name shape ≠ line) →
   lineColors !! line = None) ∧
  (∀ pre shape post,
     Object_values shapesData = pre ++ shape :: post →
     route_name shape = line →
     (∀ s, s ∈ post → route_name s ≠ line) →
     lineColors !! line = Some (color shape)).
Proof.
  assert (Hnone : ∀ l : list Shape,
            (∀ s, s ∈ l → route_name s ≠ line) →
            List.filter (λ s, String.eqb (route_name s) line) l = []).
  { induction l as [|x l IH]; simpl; [done|]. intros H.
    destruct (String.eqb_spec (route_name x) line) as [Heq|_].
    - exfalso. apply (H x); [left | done].
    - apply IH. intros s Hs. apply H. by right. }
  unfold lineColors. rewrite lineColors_fold. split.
  - intros H. by rewrite Hnone.
  - intros pre shape post -> Hname Hpost.
    rewrite bool_filter_app. simpl.
    apply String.eqb_eq in Hname. rewrite Hname, (Hnone post Hpost).
    by rewrite last_snoc.
Qed.

Lemma occurrences_le_length (x : string) (l : list string) :
  occurrences x l ≤ Z.of_nat (length l).
Proof.
  induction l as [|y l IH]; simpl; [done|]. destruct (String.eqb y x); lia.
Qed.

(** X20: a row of the sidebar never shows a count of zero: every
    displayed line is the line of some type-filtered stop, and its count
    lies between one and the length of the scan. *)
Theorem displayed_counts_positive (fs : FilterState) (e : LineStat) :
  e ∈ displayedLines (stats fs) →
  name e ∈ lineScan fs ∧ 1 ≤ count e ≤ Z.of_nat (length (lineScan fs)).
Proof.
  intros He.
  assert (Hr : e ∈ rankedLines fs)
    by (eapply elem_of_sublist; [done | apply displayedLines_sublist]).
  apply elem_of_rankedLines in Hr as [Hscan Hc]. split; [done|].
  rewrite Hc. pose proof (occurrences_le_length (name e) (lineScan fs)).
  apply occurrences_pos in Hscan. lia.
Qed.

End Dashboard.

(** ** Stops without metadata *)

Lemma aggregate_skips (pre post : list Stop) (s : Stop)
    (stopsMeta : gmap string StopMeta) (fs : FilterState) :
  stopsMeta !! stop_id s = None →
  aggregate (pre ++ s :: post) stopsMeta fs = aggregate (pre ++ post) stopsMeta fs.
Proof.
  intros Hnone. unfold aggregate, stopsFilteredByType.
  rewrite !bool_filter_app, !fold_left_app. simpl.
  destruct (keptByType stopsMeta fs s); [|done]. simpl.
  unfold tallyStop at 2. by rewrite Hnone.
Qed.

(** C9: a stop without metadata is visible when the stops and the bus mode
    are on and no line is selected, its marker has the bus icon, and the
    statistics are what they are without it: it adds nothing to the bus
    count, to the tram count or to the count of any line. *)
Theorem stop_without_metadata (pre post : list Stop) (s : Stop)
    (stopsMeta : gmap string StopMeta) (shapesData : list (string * Shape))
    (engine : Engine) (fs : FilterState) :
  stopsMeta !! stop_id s = None →
  showStops fs = true → showBus fs = true → selectedLines fs = ∅ →
  let stopsData := pre ++ s :: post in
  let marker := markerOf (lineColors shapesData) s (stopsMeta !! stop_id s) in
  s ∈ visibleStops stopsData stopsMeta fs ∧
  marker ∈ markersOf stopsData stopsMeta shapesData fs ∧
  marker_icon marker = {| iconSvg := busSVG; colorClass := "icon-bus" |} ∧
  linesOf stopsMeta s = [] ∧
  aggregate stopsData stopsMeta fs = aggregate (pre ++ post) stopsMeta fs ∧
  stats stopsData stopsMeta engine fs
    = stats (pre ++ post) stopsMeta engine fs.
Proof.
  intros Hnone Hstops Hbus Hsel stopsData marker.
  assert (Hvis : s ∈ visibleStops stopsData stopsMeta fs).
  { apply elem_of_visibleStops. unfold isTramStop. rewrite Hnone.
    split; [|by auto]. subst stopsData. rewrite elem_of_app, elem_of_cons. auto. }
  assert (Hagg : aggregate stopsData stopsMeta fs
                 = aggregate (pre ++ post) stopsMeta fs)
    by (by apply aggregate_skips).
  split; [done|]. split.
  { unfold markersOf. apply list_elem_of_In, in_map_iff. exists s.
    split; [done | by apply list_elem_of_In]. }
  split; [by subst marker; rewrite Hnone|].
  split; [by unfold linesOf; rewrite Hnone|].
  split; [done|].
  unfold stats, searchedLines, rankedLines. by rewrite Hagg.
Qed.

(** ** The theorems at the sample datasets *)

Lemma visibleStops_iff_witness :
  let fs := with_selectedLines {["L1"]} initialFilter in
  Scenario.S2 ∈ visibleStops Scenario.stops Scenario.meta fs ∧
  Scenario.S1 ∉ visibleStops Scenario.stops Scenario.meta fs.
Proof.
  intros fs.
  destruct (visibleStops_iff Scenario.stops Scenario.meta fs) as (H & _ & _).
  split.
  - apply H. split; [right; left|]. split; [reflexivity|]. split.
    + right. split; reflexivity.
    + right. eexists _, "L1". split; [vm_compute; reflexivity|].
      split; [left | vm_compute; reflexivity].
  - intros Hin. apply H in Hin as (_ & _ & _ & [Hsel | (m & line & Hm & Hl & Hs)]).
    + vm_compute in Hsel. discriminate.
    + vm_compute in Hm. injection Hm as <-.
      change (line ∈ ({["L1"]} : gset string)) in Hs.
      apply elem_of_singleton in Hs. subst line. simpl in Hl.
      apply list_elem_of_singleton in Hl. discriminate.
Defined.

Lemma drawShapes_filter_witness :
  let app := {| filter_state := with_showBus false initialFilter;
                markersLayer := Some []; shapesLayer := Some []; calls := [] |} in
  shapesLayer app = Some [] ∧
  shapesLayer (drawShapes Network.shapes app)
    = Some (map polylineOf (visibleShapes Network.shapes (filter_state app))) ∧
  visibleShapes Network.shapes (filter_state app)
    = [Network.shapeT1; Network.shapeC1; Network.shapeT2].
Proof.
  intros app.
  destruct (drawShapes_filter Network.shapes app [] eq_refl) as (H1 & _ & _ & H4).
  split; [reflexivity|]. split; [exact H1|].
  apply H4; reflexivity.
Defined.

Lemma visibleShapes_independent_witness :
  let fs1 := initialFilter in
  let fs2 := with_showStops false
               (with_searchQuery "t" (with_showAllLines true initialFilter)) in
  showBus fs1 = showBus fs2 ∧ showTram fs1 = showTram fs2 ∧
  selectedLines fs1 = selectedLines fs2 ∧
  visibleShapes Network.shapes fs1 = visibleShapes Network.shapes fs2.
Proof.
  intros fs1 fs2. do 3 (split; [reflexivity|]).
  apply (visibleShapes_independent Network.stops Network.meta Network.shapes fs1 fs2);
    reflexivity.
Defined.

Lemma lineStats_ranked_witness :
  displayedLines (stats Scenario.stops Scenario.meta asciiEngine initialFilter)
    = [{| name := "T1"; count := 2 |}; {| name := "L1"; count := 1 |}] ∧
  StronglySorted
    (ranksBefore (lineScan Scenario.stops Scenario.meta initialFilter))
    (displayedLines (stats Scenario.stops Scenario.meta asciiEngine initialFilter)).
Proof.
  split; [vm_compute; reflexivity|].
  apply (lineStats_ranked Scenario.stops Scenario.meta asciiEngine initialFilter).
Defined.

Lemma search_filter_witness :
  let fs := with_searchQuery "c" initialFilter in
  let nbsp := with_searchQuery (Str.fromCodePoints [160%N]) initialFilter in
  Str.blank (searchQuery fs) = false ∧
  map name (displayedLines (stats Network.stops Network.meta asciiEngine fs))
    = ["C1"; "c2"; "ABC"] ∧
  (∀ e, e ∈ displayedLines (stats Network.stops Network.meta asciiEngine fs) ↔
        e ∈ rankedLines Network.stops Network.meta fs ∧
        ∃ pre post,
          toLowerCase asciiEngine (name e)
          = pre +:+ toLowerCase asciiEngine (searchQuery fs) +:+ post) ∧
  Str.blank (searchQuery nbsp) = true ∧
  Str.trim (searchQuery nbsp) = EmptyString ∧
  searchedLines Network.stops Network.meta asciiEngine nbsp
    = rankedLines Network.stops Network.meta nbsp.
Proof.
  intros fs nbsp. split; [reflexivity|]. split; [vm_compute; reflexivity|].
  destruct (search_filter Network.stops Network.meta asciiEngine fs) as (_ & H & _).
  split; [apply H; reflexivity|].
  destruct (search_filter Network.stops Network.meta asciiEngine nbsp)
    as (_ & _ & Hb).
  split; [reflexivity|]. split; [reflexivity|]. apply Hb. reflexivity.
Defined.

Lemma displayedLines_cap_witness :
  let fs := initialFilter in
  length (first_occurrences (lineScan Network.stops Network.meta fs)) = 10%nat ∧
  showAllLines fs = false ∧ searchQuery fs = EmptyString ∧
  length (displayedLines (stats Network.stops Network.meta asciiEngine fs)) = 6%nat.
Proof.
  intros fs. split; [vm_compute; reflexivity|]. do 2 (split; [reflexivity|]).
  destruct (displayedLines_cap Network.stops Network.meta asciiEngine fs) as (_ & _ & H).
  apply H; [vm_compute; reflexivity | reflexivity | reflexivity].
Defined.

Lemma handlers_redraw_witness :
  let app := onMounted Scenario.stops Scenario.meta Scenario.shapes true setup in
  let ms := markersOf Scenario.stops Scenario.meta Scenario.shapes initialFilter in
  let ps := polylinesOf Scenario.shapes initialFilter in
  markersLayer app = Some ms ∧ shapesLayer app = Some ps ∧
  inSync Scenario.stops Scenario.meta Scenario.shapes
         (handle Scenario.stops Scenario.meta Scenario.shapes (ToggleType bus) app).
Proof.
  intros app ms ps.
  assert (Hm : markersLayer app = Some ms) by (vm_compute; reflexivity).
  assert (Hs : shapesLayer app = Some ps) by (vm_compute; reflexivity).
  split; [exact Hm|]. split; [exact Hs|].
  destruct (handlers_redraw Scenario.stops Scenario.meta Scenario.shapes
              (ToggleType bus) app ms ps Hm Hs) as [[_ H] _].
  exact H.
Defined.

Lemma deriveView_idempotent_witness :
  let fs := initialFilter in
  let other := with_selectedLines {["L1"]} (with_showTram false initialFilter) in
  let m := initialMemory Scenario.stops in
  Coherent Scenario.stops Scenario.meta asciiEngine fs m ∧
  ∃ v m1 v' m3,
    deriveViewV Scenario.meta asciiEngine fs m = Some (v, m1) ∧
    deriveViewV Scenario.meta asciiEngine fs m1 = Some (v, m1) ∧
    stopsAt (heap m3) (ref_stops v) = Some [Scenario.S1; Scenario.S2] ∧
    stopsAt (heap m3) (ref_stops v') = Some [Scenario.S1; Scenario.S2] ∧
    statsAt (heap m3) (ref_stats v)
    = Some (stats Scenario.stops Scenario.meta asciiEngine fs) ∧
    statsAt (heap m3) (ref_stats v')
    = Some (stats Scenario.stops Scenario.meta asciiEngine fs).
Proof.
  intros fs other m.
  assert (Hc : Coherent Scenario.stops Scenario.meta asciiEngine fs m).
  { split; [reflexivity|]. split; [intros p H; discriminate H|].
    split; [intros p H; discriminate H | intros r H; discriminate H]. }
  split; [exact Hc|].
  destruct (deriveView_idempotent Scenario.stops Scenario.meta Scenario.shapes
              asciiEngine fs other m Hc)
    as (v & m1 & Hrun & _ & _ & _ & Hagain &
        (w & m2 & v' & m3 & _ & _ & Hs' & Hst' & Hs & Hst & _) & _).
  exists v, m1, v', m3.
  split; [exact Hrun|]. split; [exact Hagain|]. split; [exact Hs|].
  split; [exact Hs'|]. split; [exact Hst | exact Hst'].
Defined.

Lemma popupContent_parts_witness :
  imageHtml Network.gache = vincentGacheImage ∧
  imageHtml Network.gache ≠ EmptyString ∧
  ¬ (imageHtml Network.hub ≠ EmptyString).
Proof.
  destruct (popupContent_parts Network.stops Network.meta Network.shapes
              (lineColors Network.shapes) Network.gache None)
    as (_ & _ & _ & _ & _ & Hi & _ & Hv & _).
  destruct (popupContent_parts Network.stops Network.meta Network.shapes
              (lineColors Network.shapes) Network.hub None)
    as (_ & _ & _ & _ & _ & Hh & _).
  split; [apply Hv; reflexivity|]. split.
  - apply Hi. right. reflexivity.
  - intros [H|H]%Hh; vm_compute in H; discriminate.
Defined.

Lemma stop_without_metadata_witness :
  let fs := initialFilter in
  Network.meta !! stop_id Network.depot = None ∧
  showStops fs = true ∧ showBus fs = true ∧ selectedLines fs = ∅ ∧
  Network.depot ∈ visibleStops Network.stops Network.meta fs ∧
  stats Network.stops Network.meta asciiEngine fs
    = stats [Network.commerce; Network.gache; Network.hub] Network.meta asciiEngine fs.
Proof.
  intros fs.
  assert (Hnone : Network.meta !! stop_id Network.depot = None)
    by (vm_compute; reflexivity).
  split; [exact Hnone|]. do 3 (split; [reflexivity|]).
  destruct (stop_without_metadata [Network.commerce] [Network.gache; Network.hub]
              Network.depot Network.meta Network.shapes asciiEngine fs
              Hnone eq_refl eq_refl eq_refl)
    as (Hv & _ & _ & _ & _ & Hst).
  split; [exact Hv | exact Hst].
Defined.

(** ** Where the code departs from the text *)

(** C4 as written fails on a blank search text: the text is not empty,
    nothing is filtered whatever the lower-casing, and T1 is displayed
    although it has no blank. *)
Lemma blank_search_counterexample :
  let fs := with_searchQuery " " initialFilter in
  searchQuery fs ≠ EmptyString ∧
  (∀ engine, displayedLines (stats Scenario.stops Scenario.meta engine fs)
             = [{| name := "T1"; count := 2 |}; {| name := "L1"; count := 1 |}]) ∧
  ¬ occursIgnoringCase (searchQuery fs) "T1" ∧
  ¬ (∀ e, e ∈ displayedLines (stats Scenario.stops Scenario.meta asciiEngine fs) ↔
          e ∈ rankedLines Scenario.stops Scenario.meta fs ∧
          occursIgnoringCase (searchQuery fs) (name e)).
Proof.
  intros fs.
  assert (Hno : ¬ occursIgnoringCase (searchQuery fs) "T1").
  { intros H. apply includes_asciiLower in H. vm_compute in H. discriminate. }
  split; [discriminate|]. split; [intros engine; vm_compute; reflexivity|].
  split; [exact Hno|].
  intros H. apply Hno.
  apply (H {| name := "T1"; count := 2 |}).
  vm_compute. left.
Qed.

(** C6 as written fails on the master switch, the search box and the
    expansion link: after mounting, the first makes no call to the layer of
    the polylines, the other two make no call at all. *)
Lemma master_switch_counterexample :
  let app := onMounted Scenario.stops Scenario.meta Scenario.shapes true setup in
  let run := (λ a, handle Scenario.stops Scenario.meta Scenario.shapes a app) in
  issued app (run ToggleStopsMaster) = [ClearMarkers] ∧
  (ClearShapes ∉ issued app (run ToggleStopsMaster)) ∧
  issued app (run (SetSearchQuery "t")) = [] ∧
  issued app (run ToggleShowAllLines) = [].
Proof.
  intros app run.
  assert (H : issued app (run ToggleStopsMaster) = [ClearMarkers])
    by (vm_compute; reflexivity).
  split; [exact H|]. split.
  - rewrite H. intros Hin. apply list_elem_of_singleton in Hin. discriminate.
  - split; vm_compute; reflexivity.
Qed.

(** ** The further theorems at the sample datasets *)

Lemma run_unmounted_witness :
  let actions := [ToggleType bus; ToggleLine "T1"; ToggleStopsMaster] in
  let app := run Scenario.stops Scenario.meta Scenario.shapes actions
               (onMounted Scenario.stops Scenario.meta Scenario.shapes false setup) in
  markersLayer setup = None ∧ shapesLayer setup = None ∧
  markersLayer app = None ∧ shapesLayer app = None ∧ calls app = [].
Proof.
  intros actions app. do 2 (split; [reflexivity|]).
  destruct (run_unmounted Scenario.stops Scenario.meta Scenario.shapes
              actions setup eq_refl eq_refl) as (Hm & Hs & Hc & _).
  split; [exact Hm|]. split; [exact Hs | exact Hc].
Defined.

Lemma toggle_twice_witness :
  let app := onMounted Scenario.stops Scenario.meta Scenario.shapes true setup in
  let twice := handle Scenario.stops Scenario.meta Scenario.shapes (ToggleLine "L1")
                 (handle Scenario.stops Scenario.meta Scenario.shapes
                    (ToggleLine "L1") app) in
  isToggle (ToggleLine "L1") = true ∧ filter_state twice = filter_state app.
Proof.
  intros app twice. split; [reflexivity|].
  apply (toggle_twice Scenario.stops Scenario.meta Scenario.shapes
           (ToggleLine "L1") app). reflexivity.
Defined.

Lemma visibleStops_in_order_witness :
  let app := onMounted Scenario.stops Scenario.meta Scenario.shapes true setup in
  filter_state app = initialFilter ∧
  markersLayer app
    = Some (markersOf Scenario.stops Scenario.meta Scenario.shapes initialFilter) ∧
  ∃ ms, markersLayer (drawStops Scenario.stops Scenario.meta Scenario.shapes app)
          = Some ms ∧
        length ms = length (visibleStops Scenario.stops Scenario.meta initialFilter).
Proof.
  intros app.
  assert (Hf : filter_state app = initialFilter) by reflexivity.
  assert (Hm : markersLayer app
               = Some (markersOf Scenario.stops Scenario.meta Scenario.shapes
                                 initialFilter)) by (vm_compute; reflexivity).
  split; [exact Hf|]. split; [exact Hm|].
  destruct (visibleStops_in_order Scenario.stops Scenario.meta Scenario.shapes
              initialFilter) as (_ & _ & H).
  destruct (H app _ Hf Hm) as (ms & H1 & H2 & _).
  exists ms. split; [exact H1 | exact H2].
Defined.

Lemma visibleStops_selection_mono_witness :
  let sel1 : gset string := {["L1"]} in
  let sel2 : gset string := {["L1"; "T1"]} in
  sel1 ≠ ∅ ∧ sel1 ⊆ sel2 ∧
  visibleStops Scenario.stops Scenario.meta (with_selectedLines sel1 initialFilter)
    `sublist_of`
  visibleStops Scenario.stops Scenario.meta (with_selectedLines sel2 initialFilter).
Proof.
  intros sel1 sel2.
  assert (H1 : sel1 ≠ ∅) by (intros H; vm_compute in H; discriminate).
  assert (H2 : sel1 ⊆ sel2).
  { intros x Hx. apply elem_of_singleton in Hx. subst x.
    apply elem_of_union. left. apply elem_of_singleton. reflexivity. }
  split; [exact H1|]. split; [exact H2|].
  apply (visibleStops_selection_mono Scenario.stops Scenario.meta initialFilter
           sel1 sel2 H1 H2).
Defined.

Lemma visibleStops_unknown_lines_witness :
  let fs := with_selectedLines {["Z9"]} initialFilter in
  selectedLines fs ≠ ∅ ∧
  (∀ l, l ∈ selectedLines fs → l ∉ knownLines Scenario.stops Scenario.meta) ∧
  visibleStops Scenario.stops Scenario.meta fs = [].
Proof.
  intros fs.
  assert (H1 : selectedLines fs ≠ ∅) by (intros H; vm_compute in H; discriminate).
  assert (H2 : ∀ l, l ∈ selectedLines fs → l ∉ knownLines Scenario.stops Scenario.meta).
  { intros l Hl. change (l ∈ ({["Z9"]} : gset string)) in Hl.
    apply elem_of_singleton in Hl. subst l. intros Hin.
    apply list_elem_of_In in Hin. vm_compute in Hin.
    destruct Hin as [H|[H|[H|[]]]]; discriminate. }
  split; [exact H1|]. split; [exact H2|].
  apply (visibleStops_unknown_lines Scenario.stops Scenario.meta fs H1 H2).
Defined.

Lemma visibleStops_modes_partition_witness :
  showStops initialFilter = true ∧ selectedLines initialFilter = ∅ ∧
  visibleStops Network.stops Network.meta
    (with_showBus true (with_showTram true initialFilter)) = Network.stops.
Proof.
  do 2 (split; [reflexivity|]).
  apply (visibleStops_modes_partition Network.stops Network.meta initialFilter);
    reflexivity.
Defined.

Lemma markers_match_counts_witness :
  (∀ s, s ∈ Scenario.stops → is_Some (Scenario.meta !! stop_id s)) ∧
  showStops initialFilter = true ∧ selectedLines initialFilter = ∅ ∧
  Z.of_nat (length (markersOf Scenario.stops Scenario.meta Scenario.shapes
                              initialFilter))
    = busCount (stats Scenario.stops Scenario.meta asciiEngine initialFilter)
      + tramCount (stats Scenario.stops Scenario.meta asciiEngine initialFilter).
Proof.
  assert (H : ∀ s, s ∈ Scenario.stops → is_Some (Scenario.meta !! stop_id s)).
  { intros s Hs. apply list_elem_of_In in Hs.
    destruct Hs as [<-|[<-|[]]]; eexists; vm_compute; reflexivity. }
  split; [exact H|]. do 2 (split; [reflexivity|]).
  apply (markers_match_counts Scenario.stops Scenario.meta Scenario.shapes asciiEngine
           initialFilter H); reflexivity.
Defined.

Lemma rankedLines_unique_witness :
  let l := [{| name := "T1"; count := 2 |}; {| name := "L1"; count := 1 |}] in
  l ≡ₚ rankedLines Scenario.stops Scenario.meta initialFilter ∧
  StronglySorted
    (ranksBefore (lineScan Scenario.stops Scenario.meta initialFilter)) l ∧
  l = rankedLines Scenario.stops Scenario.meta initialFilter.
Proof.
  intros l.
  assert (H1 : l ≡ₚ rankedLines Scenario.stops Scenario.meta initialFilter).
  { apply Permutation_refl'. vm_compute. reflexivity. }
  assert (H2 : StronglySorted
                 (ranksBefore (lineScan Scenario.stops Scenario.meta initialFilter)) l).
  { repeat constructor. }
  split; [exact H1|]. split; [exact H2|].
  apply (rankedLines_unique Scenario.stops Scenario.meta initialFilter l H1 H2).
Defined.

Lemma countLine_get_witness :
  let m : JsMap.t := [("T1", 2); ("L1", 1)] in
  "T1" ≠ "L1" ∧
  JsMap.get "T1" (countLine m "L1") = JsMap.get "T1" m ∧
  JsMap.get "L1" (countLine m "L1") = Some 2.
Proof.
  intros m.
  assert (Hne : "T1" ≠ "L1") by discriminate.
  destruct (countLine_get m "L1") as (H1 & H2 & _).
  split; [exact Hne|]. split; [exact (H2 "T1" Hne) | exact H1].
Defined.

Lemma search_ignores_case_witness :
  Str.blank "ABc" = false ∧ Str.blank "abC" = false ∧
  toLowerCase asciiEngine "ABc" = toLowerCase asciiEngine "abC" ∧
  stats Network.stops Network.meta asciiEngine (with_searchQuery "ABc" initialFilter)
    = stats Network.stops Network.meta asciiEngine
            (with_searchQuery "abC" initialFilter).
Proof.
  do 3 (split; [reflexivity|]).
  apply (search_ignores_case Network.stops Network.meta asciiEngine initialFilter);
    reflexivity.
Defined.

Lemma search_keeps_blanks_witness :
  let fs := with_searchQuery "c " initialFilter in
  (∀ s, hasSpace (toLowerCase asciiEngine s) = hasSpace s) ∧
  hasSpace (searchQuery fs) = true ∧
  Str.blank (searchQuery fs) = false ∧
  (∀ l, l ∈ lineScan Network.stops Network.meta fs → hasSpace l = false) ∧
  displayedLines (stats Network.stops Network.meta asciiEngine fs) = [].
Proof.
  intros fs.
  assert (H : ∀ l, l ∈ lineScan Network.stops Network.meta fs → hasSpace l = false).
  { intros l Hl. apply list_elem_of_In in Hl. vm_compute in Hl.
    repeat (destruct Hl as [<-|Hl]; [reflexivity|]). destruct Hl. }
  split; [exact hasSpace_asciiLower|]. do 2 (split; [reflexivity|]).
  split; [exact H|].
  apply (search_keeps_blanks Network.stops Network.meta asciiEngine fs
           hasSpace_asciiLower eq_refl eq_refl H).
Defined.

Lemma moreLink_counts_hidden_witness :
  searchQuery initialFilter = EmptyString ∧
  moreLinkShown Network.stops Network.meta asciiEngine initialFilter = true ∧
  showAllLines initialFilter = false ∧
  length (displayedLines (stats Network.stops Network.meta asciiEngine initialFilter)) = 6%nat ∧
  0 < moreLinkCount Network.stops Network.meta asciiEngine initialFilter.
Proof.
  assert (Hshown : moreLinkShown Network.stops Network.meta asciiEngine initialFilter = true)
    by (vm_compute; reflexivity).
  split; [reflexivity|]. split; [exact Hshown|]. split; [reflexivity|].
  destruct (moreLink_counts_hidden Network.stops Network.meta asciiEngine initialFilter eq_refl)
    as (_ & _ & H).
  destruct (H Hshown eq_refl) as (H1 & H2 & _).
  split; [exact H1 | exact H2].
Defined.

Lemma selection_known_witness :
  let start := onMounted Scenario.stops Scenario.meta Scenario.shapes true setup in
  let app := handle Scenario.stops Scenario.meta Scenario.shapes (ToggleLine "T1")
               start in
  (∀ l, l ∈ selectedLines (filter_state start) →
        l ∈ knownLines Scenario.stops Scenario.meta) ∧
  Reachable Scenario.stops Scenario.meta Scenario.shapes asciiEngine start app ∧
  ∀ l, l ∈ selectedLines (filter_state app) →
       l ∈ knownLines Scenario.stops Scenario.meta.
Proof.
  intros start app.
  assert (H1 : ∀ l, l ∈ selectedLines (filter_state start) →
                    l ∈ knownLines Scenario.stops Scenario.meta).
  { intros l Hl. change (l ∈ (∅ : gset string)) in Hl.
    apply not_elem_of_empty in Hl. destruct Hl. }
  assert (H2 : Reachable Scenario.stops Scenario.meta Scenario.shapes asciiEngine start app).
  { apply reach_step; [apply reach_start | vm_compute; reflexivity]. }
  split; [exact H1|]. split; [exact H2|].
  apply (selection_known Scenario.stops Scenario.meta Scenario.shapes
           asciiEngine start app H1 H2).
Defined.

Lemma lineColors_last_wins_witness :
  Object_values Network.shapes
    = [Network.shapeT1; Network.shapeC1] ++ Network.shapeT2 :: [] ∧
  route_name Network.shapeT2 = "T2" ∧
  (∀ s : Shape, s ∈ [] → route_name s ≠ "T2") ∧
  lineColors Network.shapes !! "T2" = Some "#e2001a".
Proof.
  assert (H : ∀ s : Shape, s ∈ [] → route_name s ≠ "T2").
  { intros s Hs. apply elem_of_nil in Hs. destruct Hs. }
  do 2 (split; [reflexivity|]). split; [exact H|].
  destruct (lineColors_last_wins Network.shapes "T2") as [_ Hl].
  apply (Hl [Network.shapeT1; Network.shapeC1] Network.shapeT2 [] eq_refl eq_refl H).
Defined.

Lemma displayed_counts_positive_witness :
  let e := {| name := "T1"; count := 2 |} in
  e ∈ displayedLines (stats Scenario.stops Scenario.meta asciiEngine initialFilter) ∧
  1 ≤ count e ≤ Z.of_nat (length (lineScan Scenario.stops Scenario.meta initialFilter)).
Proof.
  intros e.
  assert (H : e ∈ displayedLines (stats Scenario.stops Scenario.meta asciiEngine initialFilter)).
  { apply list_elem_of_In. vm_compute. left. reflexivity. }
  split; [exact H|].
  apply (displayed_counts_positive Scenario.stops Scenario.meta asciiEngine initialFilter e H).
Defined.
